(** * Gmail digest tools: content normalisation, URL extraction, digests

    A shallow embedding of the text pipeline and of the digest aggregation
    of [gmail_ai_summarizer.py] (class [GmailAISummarizer]) and
    [gmail_url_extractor.py] (class [GmailURLExtractor]).

    Conventions of the embedding.
    - A Python [str] is the list of its Unicode code points ([list N]);
      [py] turns an ASCII literal into one.
    - A Python [dict] whose iteration order is observed (the counting
      dictionaries) is an association list in insertion order; the digest,
      a dict read by key only, is a [gmap] from field names to values.
    - [list(set(xs))] is [elements (list_to_set xs)]: a duplicate-free list
      with the elements of [xs] in an order that the program does not
      control.  No statement below depends on that order.
    - Exceptions are explicit: a computation that may raise has type
      [result A].
    - Library functions ([base64], [bytes.decode], [BeautifulSoup],
      [urllib.parse]) are parameters of the functions that call them; the
      modules [Base64] and [Urllib] model two of them for closed examples. *)

From Stdlib Require Import NArith Ascii String Sorting.Sorted.
From stdpp Require Import base numbers option list sets gmap strings sorting.

Set Warnings "-clear-no-such-hyp".
Local Open Scope N_scope.

(** ** Python values *)

Module Py.

(** A [str] is a sequence of code points. *)
Abbreviation char := N (only parsing).
Abbreviation str := (list N) (only parsing).

(** An ASCII literal as a [str]. *)
Fixpoint py (s : string) : str :=
  match s with
  | EmptyString => []
  | String a s' => N_of_ascii a :: py s'
  end.
Global Arguments py : simpl never.

(** [bytes]: a sequence of octets (values below 256). *)
Abbreviation bytes := (list N) (only parsing).

(** Exceptions, as far as the modelled code can meet them. *)
Inductive exn :=
| ValueError
| BinasciiError
| UnicodeDecodeError
| ParserError.

(** A computation that returns a value or raises. *)
Inductive result (A : Type) :=
| Ret (v : A)
| Raise (e : exn).
Arguments Ret {A} v.
Arguments Raise {A} e.

Definition bind {A B} (m : result A) (f : A → result B) : result B :=
  match m with
  | Ret v => f v
  | Raise e => Raise e
  end.

(** [try: x = body  except: x = fallback] with a bare [except]. *)
Definition try_except {A} (body : result A) (fallback : A) : A :=
  match body with
  | Ret v => v
  | Raise _ => fallback
  end.

(** [x ← m; k] runs [m] and, unless it raises, [k] on its value. *)
#[global] Instance result_bind : MBind result := λ A B f m, bind m f.

Definition returns {A} (m : result A) : Prop := ∃ v, m = Ret v.


(** *** Strings *)

(** [c.isspace()]: the code points CPython classifies as whitespace. *)
Definition isspace (c : char) : bool :=
  ((9 <=? c) && (c <=? 13)) || ((28 <=? c) && (c <=? 32)) ||
  (c =? 133) || (c =? 160) || (c =? 5760) ||
  ((8192 <=? c) && (c <=? 8202)) || (c =? 8232) || (c =? 8233) ||
  (c =? 8239) || (c =? 8287) || (c =? 12288).

(** The line boundaries of [str.splitlines]. *)
Definition is_linebreak (c : char) : bool :=
  ((10 <=? c) && (c <=? 13)) || ((28 <=? c) && (c <=? 30)) ||
  (c =? 133) || (c =? 8232) || (c =? 8233).

Fixpoint lstrip (s : str) : str :=
  match s with
  | [] => []
  | c :: s' => if isspace c then lstrip s' else s
  end.

Definition rstrip (s : str) : str := reverse (lstrip (reverse s)).

(** [s.strip()] *)
Definition strip (s : str) : str := rstrip (lstrip s).

(** [s.splitlines()]: [cur] is the line read so far; [after_cr] says that
    the previous character was a carriage return, so that a line feed
    right after it belongs to the same boundary.  A last line that is
    empty is not reported. *)
Fixpoint splitlines_go (cur : str) (after_cr : bool) (s : str) : list str :=
  match s with
  | [] => match cur with [] => [] | _ => [cur] end
  | c :: s' =>
      if after_cr && (c =? 10) then splitlines_go cur false s'
      else if is_linebreak c then cur :: splitlines_go [] (c =? 13) s'
      else splitlines_go (cur ++ [c]) false s'
  end.

Definition splitlines (s : str) : list str := splitlines_go [] false s.

(** [s.split("  ")]: split at each two-space separator, scanning from the
    left; [cur] is the piece read so far. *)
Fixpoint split_2sp_go (cur : str) (s : str) : list str :=
  match s with
  | [] => [cur]
  | c1 :: s1 =>
      match s1 with
      | [] => [cur ++ [c1]]
      | c2 :: s2 =>
          if (c1 =? 32) && (c2 =? 32) then cur :: split_2sp_go [] s2
          else split_2sp_go (cur ++ [c1]) s1
      end
  end.

Definition split_2sp (s : str) : list str := split_2sp_go [] s.

(** [' '.join(chunks)] *)
Fixpoint join_sp (chunks : list str) : str :=
  match chunks with
  | [] => []
  | [c] => c
  | c :: rest => c ++ 32 :: join_sp rest
  end.

(** [sep.join(items)] *)
Fixpoint str_join (sep : str) (items : list str) : str :=
  match items with
  | [] => []
  | [x] => x
  | x :: rest => x ++ sep ++ str_join sep rest
  end.

(** Truthiness of a [str]. *)
Definition nonempty (s : str) : bool :=
  match s with [] => false | _ => true end.

(** *** Dictionaries in insertion order *)

Abbreviation dict V := (list (str * V)) (only parsing).

(** [d.get(k, default)] *)
Fixpoint dict_get {V} (d : dict V) (k : str) (default : V) : V :=
  match d with
  | [] => default
  | (k', v) :: d' => if bool_decide (k' = k) then v else dict_get d' k default
  end.

(** [d[k] = v]: an existing key keeps its place, a new key goes last. *)
Fixpoint dict_set {V} (d : dict V) (k : str) (v : V) : dict V :=
  match d with
  | [] => [(k, v)]
  | (k', v') :: d' =>
      if bool_decide (k' = k) then (k', v) :: d' else (k', v') :: dict_set d' k v
  end.

(** The counting loop [for x in xs: d[x] = d.get(x, 0) + 1], from [d]. *)
Definition count_into (d : dict nat) (xs : list str) : dict nat :=
  foldl (λ d x, dict_set d x (dict_get d x 0 + 1)%nat) d xs.

(** *** Sorting *)

(** [sorted(items, key=lambda x: x[1], reverse=True)].  [sorted] is
    stable, also with [reverse=True]: items with equal keys keep their
    order.  That determines the result; the model builds it by insertion
    from the right, an item passing only items of strictly larger count. *)
Fixpoint insert_desc (x : str * nat) (l : list (str * nat)) : list (str * nat) :=
  match l with
  | [] => [x]
  | y :: l' => if (x.2 <? y.2)%nat then y :: insert_desc x l' else x :: l
  end.

Definition sorted_by_count_desc (items : list (str * nat)) : list (str * nat) :=
  foldr insert_desc [] items.

(** [list(set(xs))] *)
Definition list_of_set (xs : list str) : list str :=
  elements (list_to_set xs : gset str).

(** *** Digest values *)

Inductive value :=
| VInt (n : nat)
| VStrs (l : list str)                     (* a list of strings *)
| VDict (d : dict nat)                     (* a dict from strings to counts *)
| VPairs (l : list (str * nat))            (* a list of (string, count) tuples *)
| VDateRange (start end_ : option str).    (* {'start': ..., 'end': ...}, None as [None] *)

End Py.
Export Py.


(** ** Regular expressions: the fragment of [re] the pattern uses *)

Module Re.

(** One item of a bracketed character set. *)
Inductive item :=
| One (c : char)
| Range (lo hi : char).

Inductive regex :=
| Lit (c : char)                (* an ordinary character *)
| Set_ (items : list item)      (* [...] *)
| Seq (r1 r2 : regex)           (* r1 r2 *)
| Alt (r1 r2 : regex)           (* r1|r2, left alternative first *)
| Opt (r : regex)               (* r?  greedy *)
| Plus (r : regex).             (* r+  greedy *)

Definition in_item (c : char) (i : item) : bool :=
  match i with
  | One d => c =? d
  | Range lo hi => (lo <=? c) && (c <=? hi)
  end.

Definition in_set (items : list item) (c : char) : bool :=
  existsb (in_item c) items.

Definition orelse {A} (a b : option A) : option A :=
  match a with
  | Some x => Some x
  | None => b
  end.

(** The greedy loop of [r+]: one more iteration of the body, then as many
    further ones as possible, backtracking to fewer on failure of the
    continuation.  An iteration that consumes nothing ends the loop.
    [fuel] bounds the number of iterations; [S (length s)] is never
    exhausted, since every iteration but the last consumes a character. *)
Fixpoint plus_loop (body : str → (str → option str) → option str)
    (k : str → option str) (fuel : nat) (s : str) : option str :=
  match fuel with
  | O => None
  | S fuel' =>
      body s (λ s',
        if bool_decide (length s' < length s)%nat
        then orelse (plus_loop body k fuel' s') (k s')
        else k s')
  end.

(** Backtracking matcher in continuation-passing style: [exec r s k]
    matches [r] at the front of [s] and hands the rest of the input to
    [k]; when [k] fails the next way of matching [r] is tried.  The
    result is the input left after the whole match. *)
Fixpoint exec (r : regex) (s : str) (k : str → option str) : option str :=
  match r with
  | Lit c =>
      match s with
      | d :: s' => if d =? c then k s' else None
      | [] => None
      end
  | Set_ items =>
      match s with
      | d :: s' => if in_set items d then k s' else None
      | [] => None
      end
  | Seq r1 r2 => exec r1 s (λ s', exec r2 s' k)
  | Alt r1 r2 => orelse (exec r1 s k) (exec r2 s k)
  | Opt r1 => orelse (exec r1 s k) (k s)
  | Plus r1 => plus_loop (exec r1) k (S (length s)) s
  end.

(** [pattern.match] at the front of [s]: the matched text and the rest. *)
Definition match_at (r : regex) (s : str) : option (str * str) :=
  match exec r s Some with
  | Some rest => Some (take (length s - length rest) s, rest)
  | None => None
  end.

(** [re.findall(r, s)] for a pattern without groups: the non-overlapping
    matches from left to right.  After a match the scan resumes at its
    end (one character further after an empty match). *)
Fixpoint findall_from (r : regex) (fuel : nat) (s : str) : list str :=
  match fuel with
  | O => []
  | S fuel' =>
      match match_at r s with
      | Some (m, rest) =>
          match m with
          | [] => m :: match s with
                       | [] => []
                       | _ :: s' => findall_from r fuel' s'
                       end
          | _ :: _ => m :: findall_from r fuel' rest
          end
      | None =>
          match s with
          | [] => []
          | _ :: s' => findall_from r fuel' s'
          end
      end
  end.

Definition findall (r : regex) (s : str) : list str :=
  findall_from r (S (length s)) s.

(** A literal string as a pattern. *)
Fixpoint lits (l : str) (r : regex) : regex :=
  match l with
  | [] => r
  | c :: l' => Seq (Lit c) (lits l' r)
  end.

End Re.

Definition ch (a : ascii) : char := N_of_ascii a.
Global Arguments ch : simpl never.

(** ** Library functions the two classes call *)

Module Base64.

(** [binascii]'s decoding table: the value of a character of the standard
    alphabet, [None] for any other character. *)
Definition b64_value (c : char) : option N :=
  if (ch "A" <=? c) && (c <=? ch "Z") then Some (c - ch "A")
  else if (ch "a" <=? c) && (c <=? ch "z") then Some (c - ch "a" + 26)
  else if (ch "0" <=? c) && (c <=? ch "9") then Some (c - ch "0" + 52)
  else if c =? ch "+" then Some 62
  else if c =? ch "/" then Some 63
  else None.

(** [binascii.a2b_base64] in its default, non-strict mode (CPython 3.11
    and later): characters outside the alphabet are skipped; [quad_pos]
    counts the characters of the current group of four, [leftchar] holds
    the bits not yet written, [pads] the padding characters just seen.
    Padding that completes a group ends the decoding; input that ends
    inside a group raises [binascii.Error]. *)
Fixpoint a2b_base64_go (quad_pos leftchar pads : N) (out : bytes) (s : str)
    : result bytes :=
  match s with
  | [] => if quad_pos =? 0 then Ret out else Raise BinasciiError
  | c :: s' =>
      if c =? ch "=" then
        if (2 <=? quad_pos) && (4 <=? quad_pos + (pads + 1)) then Ret out
        else a2b_base64_go quad_pos leftchar
               (if 2 <=? quad_pos then pads + 1 else pads) out s'
      else
        match b64_value c with
        | None => a2b_base64_go quad_pos leftchar pads out s'
        | Some v =>
            if quad_pos =? 0 then a2b_base64_go 1 v 0 out s'
            else if quad_pos =? 1 then
              a2b_base64_go 2 (N.land v 15) 0
                (out ++ [N.lor (N.shiftl leftchar 2) (N.shiftr v 4)]) s'
            else if quad_pos =? 2 then
              a2b_base64_go 3 (N.land v 3) 0
                (out ++ [N.lor (N.shiftl leftchar 4) (N.shiftr v 2)]) s'
            else
              a2b_base64_go 0 0 0 (out ++ [N.lor (N.shiftl leftchar 6) v]) s'
        end
  end.

(** [base64.urlsafe_b64decode(s)] for a [str] argument: the argument must
    be ASCII ([ValueError] otherwise); [-] and [_] are translated to [+]
    and [/], and the result is decoded with the standard alphabet. *)
Definition urlsafe_b64decode (s : str) : result bytes :=
  if forallb (λ c, c <? 128) s then
    a2b_base64_go 0 0 0 []
      (map (λ c, if c =? ch "-" then ch "+" else if c =? ch "_" then ch "/" else c) s)
  else Raise ValueError.

End Base64.

Module Urllib.

(** [c in scheme_chars]: letters, digits and [+-.] *)
Definition scheme_char (c : char) : bool :=
  ((ch "a" <=? c) && (c <=? ch "z")) || ((ch "A" <=? c) && (c <=? ch "Z")) ||
  ((ch "0" <=? c) && (c <=? ch "9")) || (c =? ch "+") || (c =? ch "-") || (c =? ch ".").

(** The text after a leading scheme and its colon, when [url] has one:
    [url.find(':') > 0] and every character before the colon is a scheme
    character. *)
Fixpoint after_scheme (seen : nat) (s : str) : option str :=
  match s with
  | [] => None
  | c :: s' =>
      if c =? ch ":" then (if bool_decide (0 < seen)%nat then Some s' else None)
      else if scheme_char c then after_scheme (S seen) s'
      else None
  end.

(** [_splitnetloc(url, 2)]: the text up to the first of [/], [?], [#]. *)
Fixpoint upto_delim (s : str) : str :=
  match s with
  | [] => []
  | c :: s' =>
      if (c =? ch "/") || (c =? ch "?") || (c =? ch "#") then [] else c :: upto_delim s'
  end.

Definition has (c : char) (s : str) : bool := existsb (N.eqb c) s.

(** [urllib.parse.urlparse(url).netloc], after [urlsplit] of CPython 3.9
    and 3.10, for a [url] of ASCII characters: tab, carriage return and
    line feed are removed, a scheme is split off, and what follows [//]
    up to the next delimiter is the network location; unbalanced square
    brackets in it raise [ValueError]. *)
Definition netloc (url : str) : result str :=
  let url := filter (λ c, ¬ (c = 9 ∨ c = 10 ∨ c = 13)) url in
  let url := match after_scheme 0 url with Some rest => rest | None => url end in
  match url with
  | c1 :: c2 :: rest =>
      if (c1 =? ch "/") && (c2 =? ch "/") then
        let loc := upto_delim rest in
        if xorb (has (ch "[") loc) (has (ch "]") loc) then Raise ValueError
        else Ret loc
      else Ret []
  | _ => Ret []
  end.

End Urllib.

(** ** The Gmail message, as far as [get_email_content] reads it *)

Module Gmail.

(** One entry of [payload['parts']]: [mimeType] and [body.get('data')]. *)
Record part := { mimeType : str; part_data : option str }.

(** [message['payload']]: the header list, the parts when the key
    ['parts'] is present, and [body.get('data')]. *)
Record payload := {
  headers : list (str * str);
  parts : option (list part);
  body_data : option str
}.

(** [part['body'].get('data', '')] *)
Definition data_or_empty (d : option str) : str := default [] d.

(** [next((h['value'] for h in headers if h['name'] == name), default)] *)
Fixpoint header (name : str) (dflt : str) (hs : list (str * str)) : str :=
  match hs with
  | [] => dflt
  | (n, v) :: hs' => if bool_decide (n = name) then v else header name dflt hs'
  end.

(** The Gmail service object, as far as the two classes call it:
    [users().messages().list(userId='me', q=query, maxResults=n).execute()]
    followed by [.get('messages')] (the message ids, [None] when the key
    is absent), and [users().messages().get(userId='me', id=i).execute()]
    followed by [['payload']].  Either call may raise. *)
Record service := {
  messages_list : str → nat → result (option (list str));
  messages_get : str → result payload
}.

End Gmail.

(** ** [gmail_ai_summarizer.py]: class [GmailAISummarizer] *)

Module Summarizer.
Import Re Gmail.

(** [url_pattern] of [extract_urls_from_text], as [re] parses the raw
    string.  In the third set the three characters dollar, hyphen,
    underscore form a range; in the fourth each doubled backslash is one
    escaped backslash. *)
Definition hexdigit : regex :=
  Set_ [Range (ch "0") (ch "9"); Range (ch "a") (ch "f"); Range (ch "A") (ch "F")].

Definition url_body : regex :=
  Alt (Set_ [Range (ch "a") (ch "z"); Range (ch "A") (ch "Z")])
 (Alt (Set_ [Range (ch "0") (ch "9")])
 (Alt (Set_ [Range (ch "$") (ch "_"); One (ch "@"); One (ch "."); One (ch "&"); One (ch "+")])
 (Alt (Set_ [One (ch "!"); One (ch "*"); One (ch "\"); One (ch "(");
             One (ch "\"); One (ch ")"); One (ch ",")])
      (Seq (Lit (ch "%")) (Seq hexdigit hexdigit))))).

Definition url_pattern : regex :=
  lits (py "http") (Seq (Opt (Set_ [One (ch "s")])) (lits (py "://") (Plus url_body))).

Definition extract_urls_from_text (text : str) : list str :=
  let urls := findall url_pattern text in
  list_of_set urls.

Section Content.

(** The library calls of [clean_email_content] and their failures:
    [base64.urlsafe_b64decode], [bytes.decode('utf-8')], and the text of
    the document that [BeautifulSoup(content, 'html.parser')] builds, once
    every [script] and [style] element is decomposed ([soup.get_text()]). *)
Variable urlsafe_b64decode : str → result bytes.
Variable decode_utf8 : bytes → result str.
Variable soup_get_text : str → result str.

Definition clean_email_content (content : str) : result str :=
  if negb (nonempty content) then Ret []
  else
    (* Decode base64 if needed *)
    let content :=
      try_except (b ← urlsafe_b64decode content; decode_utf8 b) content in
    (* Parse HTML and extract text *)
    text ← soup_get_text content;
    (* Clean up whitespace *)
    let lines := map strip (splitlines text) in
    let chunks := map strip (concat (map split_2sp lines)) in
    Ret (join_sp (filter (λ chunk, nonempty chunk = true) chunks)).

(** The loop over [payload['parts']]: a [text/plain] part sets the body
    and leaves the loop, a [text/html] part sets it and goes on. *)
Fixpoint scan_parts (ps : list part) (body : str) : str :=
  match ps with
  | [] => body
  | p :: ps' =>
      if bool_decide (mimeType p = py "text/plain") then data_or_empty (part_data p)
      else if bool_decide (mimeType p = py "text/html")
           then scan_parts ps' (data_or_empty (part_data p))
           else scan_parts ps' body
  end.

(** The body that [get_email_content] hands to [clean_email_content]. *)
Definition select_body (message : payload) : str :=
  match parts message with
  | Some ps => scan_parts ps []
  | None => data_or_empty (body_data message)
  end.

(** [get_email_content], from the fetched message on: any exception ends
    in the handler, which returns four empty strings. *)
Definition get_email_content (message : payload) : str * str * str * str :=
  let subject := header (py "Subject") (py "No Subject") (headers message) in
  let sender := header (py "From") (py "Unknown Sender") (headers message) in
  let date := header (py "Date") (py "Unknown Date") (headers message) in
  let body := select_body message in
  match clean_email_content body with
  | Ret cleaned_content => (cleaned_content, subject, sender, date)
  | Raise _ => ([], [], [], [])
  end.

End Content.

(** The record that [fetch_emails] builds for one message. *)
Record email := {
  id : str;
  subject : str;
  sender : str;
  date : str;
  content : str;
  urls : list str;
  summary : str;
  key_points : list str;
  action_items : list str;
  sentiment : str
}.

Definition create_digest (emails : list email) : gmap string value :=
  if bool_decide (emails = []) then ∅
  else
    (* Extract all URLs *)
    let all_urls := foldl (λ acc email, acc ++ urls email) [] emails in
    (* Count sentiments *)
    let sentiment_counts := count_into [] (map sentiment emails) in
    (* Collect all action items *)
    let all_action_items := foldl (λ acc email, acc ++ action_items email) [] emails in
    (* Top senders *)
    let sender_counts := count_into [] (map sender emails) in
    list_to_map [
      ("total_emails"%string, VInt (length emails));
      ("unique_urls"%string, VStrs (list_of_set all_urls));
      ("sentiment_distribution"%string, VDict sentiment_counts);
      ("action_items"%string, VStrs all_action_items);
      ("top_senders"%string, VPairs (take 5 (sorted_by_count_desc sender_counts)));
      ("date_range"%string, VDateRange (date <$> last emails) (date <$> head emails))
    ].

Section Analytics.

(** [urllib.parse.urlparse(url).netloc], or the exception it raises. *)
Variable urlparse_netloc : str → result str.

(** The URL analysis of the dashboard ([main], Analytics tab): the count
    of network locations, in a loop over [digest['unique_urls']]. *)
Definition url_analysis (unique_urls : list str) : dict nat :=
  foldl (λ url_domains url,
           match urlparse_netloc url with
           | Ret domain => dict_set url_domains domain (dict_get url_domains domain 0 + 1)%nat
           | Raise _ => url_domains
           end) [] unique_urls.

End Analytics.

Definition get_date_range_query (start_date end_date : str) : str :=
  py "after:" ++ start_date ++ py " before:" ++ end_date.

(** The email volume by date of the dashboard ([main], Analytics tab):
    the count of the first ten characters of each record's date. *)
Definition date_counts (emails : list email) : dict nat :=
  count_into [] (map (λ email, take 10 (date email)) emails).

(** The text of the URL export ([main], URLs tab). *)
Definition export_urls (unique_urls : list str) : str :=
  str_join [10] unique_urls.

End Summarizer.

(** ** [gmail_url_extractor.py]: class [GmailURLExtractor] *)

Module Extractor.
Import Re Gmail.

Definition hexdigit : regex :=
  Set_ [Range (ch "0") (ch "9"); Range (ch "a") (ch "f"); Range (ch "A") (ch "F")].

Definition url_body : regex :=
  Alt (Set_ [Range (ch "a") (ch "z"); Range (ch "A") (ch "Z")])
 (Alt (Set_ [Range (ch "0") (ch "9")])
 (Alt (Set_ [Range (ch "$") (ch "_"); One (ch "@"); One (ch "."); One (ch "&"); One (ch "+")])
 (Alt (Set_ [One (ch "!"); One (ch "*"); One (ch "\"); One (ch "(");
             One (ch "\"); One (ch ")"); One (ch ",")])
      (Seq (Lit (ch "%")) (Seq hexdigit hexdigit))))).

Definition url_pattern : regex :=
  lits (py "http") (Seq (Opt (Set_ [One (ch "s")])) (lits (py "://") (Plus url_body))).

Definition extract_urls_from_text (text : str) : list str :=
  let urls := findall url_pattern text in
  list_of_set urls.

Section Content.

Variable urlsafe_b64decode : str → result bytes.
Variable decode_utf8 : bytes → result str.
Variable soup_get_text : str → result str.

Definition clean_email_content (content : str) : result str :=
  if negb (nonempty content) then Ret []
  else
    let content :=
      try_except (b ← urlsafe_b64decode content; decode_utf8 b) content in
    text ← soup_get_text content;
    let lines := map strip (splitlines text) in
    let chunks := map strip (concat (map split_2sp lines)) in
    Ret (join_sp (filter (λ chunk, nonempty chunk = true) chunks)).

Fixpoint scan_parts (ps : list part) (body : str) : str :=
  match ps with
  | [] => body
  | p :: ps' =>
      if bool_decide (mimeType p = py "text/plain") then data_or_empty (part_data p)
      else if bool_decide (mimeType p = py "text/html")
           then scan_parts ps' (data_or_empty (part_data p))
           else scan_parts ps' body
  end.

Definition select_body (message : payload) : str :=
  match parts message with
  | Some ps => scan_parts ps []
  | None => data_or_empty (body_data message)
  end.

Definition get_email_content (message : payload) : str * str * str * str :=
  let subject := header (py "Subject") (py "No Subject") (headers message) in
  let sender := header (py "From") (py "Unknown Sender") (headers message) in
  let date := header (py "Date") (py "Unknown Date") (headers message) in
  let body := select_body message in
  match clean_email_content body with
  | Ret cleaned_content => (cleaned_content, subject, sender, date)
  | Raise _ => ([], [], [], [])
  end.

End Content.

Record email := {
  id : str;
  subject : str;
  sender : str;
  date : str;
  content : str;
  urls : list str;
  url_count : nat
}.

Section Digest.

(** [urllib.parse.urlparse(url).netloc], or the exception it raises. *)
Variable urlparse_netloc : str → result str.

(** The loop over [all_urls]: a URL that [urlparse] rejects is skipped. *)
Definition count_domains (all_urls : list str) : dict nat :=
  foldl (λ url_domains url,
           match urlparse_netloc url with
           | Ret domain => dict_set url_domains domain (dict_get url_domains domain 0 + 1)%nat
           | Raise _ => url_domains
           end) [] all_urls.

Definition create_digest (emails : list email) : gmap string value :=
  if bool_decide (emails = []) then ∅
  else
    (* Extract all URLs *)
    let all_urls := foldl (λ acc email, acc ++ urls email) [] emails in
    (* Top senders *)
    let sender_counts := count_into [] (map sender emails) in
    (* URL domains *)
    let url_domains := count_domains all_urls in
    list_to_map [
      ("total_emails"%string, VInt (length emails));
      ("unique_urls"%string, VStrs (list_of_set all_urls));
      ("total_urls"%string, VInt (length all_urls));
      ("top_senders"%string, VPairs (take 5 (sorted_by_count_desc sender_counts)));
      ("url_domains"%string, VPairs (take 10 (sorted_by_count_desc url_domains)));
      ("date_range"%string, VDateRange (date <$> last emails) (date <$> head emails))
    ].

End Digest.

Definition get_date_range_query (start_date end_date : str) : str :=
  py "after:" ++ start_date ++ py " before:" ++ end_date.

Definition export_urls (unique_urls : list str) : str :=
  str_join [10] unique_urls.

Section Fetch.

Variable urlsafe_b64decode : str → result bytes.
Variable decode_utf8 : bytes → result str.
Variable soup_get_text : str → result str.

(** [get_email_content(message_id)] with its call of the service: a
    failure of the call ends in the same handler as any later one. *)
Definition get_email_content_by_id (svc : service) (message_id : str)
    : str * str * str * str :=
  match messages_get svc message_id with
  | Ret message =>
      get_email_content urlsafe_b64decode decode_utf8 soup_get_text message
  | Raise _ => ([], [], [], [])
  end.

(** The record that the loop of [fetch_emails] builds for one message. *)
Definition email_data (svc : service) (message_id : str) : email :=
  let '(content, subject, sender, date) := get_email_content_by_id svc message_id in
  let urls := extract_urls_from_text content in
  {| id := message_id;
     subject := subject;
     sender := sender;
     date := date;
     content := if bool_decide (500 < length content)%nat
                then take 500 content ++ py "..." else content;
     urls := urls;
     url_count := length urls |}.

(** [fetch_emails]: [self_service] is [None] before authentication. *)
Definition fetch_emails (self_service : option service) (query : str)
    (max_results : nat) : list email :=
  match self_service with
  | None => []
  | Some svc =>
      match messages_list svc query max_results with
      | Ret results =>
          let messages := default [] results in
          map (email_data svc) messages
      | Raise _ => []
      end
  end.

End Fetch.

End Extractor.

(** * Vocabulary of the statements *)

(** The characters that one iteration of the pattern's loop accepts: the
    exclamation mark, the range from the dollar sign to the underscore
    (code points 36 to 95), and the lower-case letters. *)
Definition url_char (c : char) : bool :=
  (c =? 33) || ((36 <=? c) && (c <=? 95)) || ((97 <=? c) && (c <=? 122)).

Fixpoint skip_url_chars (s : str) : str :=
  match s with
  | [] => []
  | c :: s' => if url_char c then skip_url_chars s' else s
  end.

(** The text ends a match: it is empty or starts outside [url_char]. *)
Definition stops (s : str) : Prop :=
  s = [] ∨ ∃ c s', s = c :: s' ∧ url_char c = false.

(** What the unique-URL entry of either digest holds. *)
Definition unique_urls_of (urlss : list (list str)) (us : list str) : Prop :=
  NoDup us ∧
  (list_to_set us : gset str) = ⋃ (map list_to_set urlss) ∧
  (length us ≤ sum_list (map length urlss))%nat.

(** The accepted characters, by code point. *)
Definition accepted (c : char) : Prop :=
  c = 33 ∨ (36 ≤ c ∧ c ≤ 95) ∨ (97 ≤ c ≤ 122).

(** [u] occurs in [text] as a scheme followed by a non-empty run of
    accepted characters that cannot be extended to the right. *)
Definition maximal_url_match (text u : str) : Prop :=
  ∃ pre scheme body post,
    text = pre ++ u ++ post ∧ u = scheme ++ body ∧
    (scheme = py "http://" ∨ scheme = py "https://") ∧
    body ≠ [] ∧ Forall accepted body ∧
    (post = [] ∨ ∃ c post', post = c :: post' ∧ ¬ accepted c).

(** The character set in the words of the specification: letters, digits
    and the thirteen listed symbols. *)
Definition spec_url_char (c : char) : bool :=
  ((ch "a" <=? c) && (c <=? ch "z")) || ((ch "A" <=? c) && (c <=? ch "Z")) ||
  ((ch "0" <=? c) && (c <=? ch "9")) ||
  existsb (N.eqb c) (py "$-_@.&+!*'(),").

Definition is_hexdigit (c : char) : bool :=
  ((ch "0" <=? c) && (c <=? ch "9")) || ((ch "a" <=? c) && (c <=? ch "f")) ||
  ((ch "A" <=? c) && (c <=? ch "F")).

(** A text made of such characters and of percent-encoded octets only. *)
Fixpoint spec_url_text (s : str) : bool :=
  match s with
  | [] => true
  | c :: s' =>
      if spec_url_char c then spec_url_text s'
      else if c =? ch "%" then
        match s' with
        | h1 :: h2 :: s'' => is_hexdigit h1 && is_hexdigit h2 && spec_url_text s''
        | _ => false
        end
      else false
  end.

(** The sentence of the specification's example. *)
Definition visit_text : str :=
  py "Visit https://example.com/page?a=1 now and http://x.io.".

(** The number of occurrences of [k] in [xs]. *)
Definition count_of (k : str) (xs : list str) : nat :=
  length (filter (λ x, x = k) xs).

(** The position at which [k] first appears in [xs]. *)
Fixpoint first_index (k : str) (xs : list str) : nat :=
  match xs with
  | [] => 0
  | x :: xs' => if bool_decide (x = k) then 0%nat else S (first_index k xs')
  end.

(** The distinct elements of [xs] in order of first appearance. *)
Fixpoint first_seen (xs : list str) : list str :=
  match xs with
  | [] => []
  | x :: xs' => x :: filter (λ y, y ≠ x) (first_seen xs')
  end.

(** Descending count first, then the order [T]. *)
Definition by_count_then (T : relation (str * nat)) : relation (str * nat) :=
  λ x y, (y.2 < x.2)%nat ∨ (x.2 = y.2 ∧ T x y).

(** [x] ranks before [y]: a larger count, or the same count and an earlier
    first appearance among [keys]. *)
Definition ranks_before (keys : list str) (x y : str * nat) : Prop :=
  (y.2 < x.2)%nat ∨
  (x.2 = y.2 ∧ (first_index x.1 keys < first_index y.1 keys)%nat).

(** [l] is the ranking of [keys]: one pair for each distinct key, with the
    number of its occurrences, in descending order of that number, keys of
    equal number in order of first appearance. *)
Definition ranking (keys : list str) (l : list (str * nat)) : Prop :=
  NoDup l.*1 ∧
  (∀ k n, (k, n) ∈ l ↔ k ∈ keys ∧ n = count_of k keys) ∧
  StronglySorted (ranks_before keys) l.

(** The network locations of the URLs that [urlparse] accepts, in order,
    one for each occurrence of a URL. *)
Definition parsed_domains (urlparse_netloc : str → result str) (all_urls : list str)
    : list str :=
  omap (λ url, match urlparse_netloc url with
               | Ret domain => Some domain
               | Raise _ => None
               end) all_urls.

(** Sample records, as [fetch_emails] of either class builds them. *)
Definition summarizer_email (sender : str) (urls : list str) : Summarizer.email :=
  {| Summarizer.id := py "id"; Summarizer.subject := py "No Subject";
     Summarizer.sender := sender; Summarizer.date := py "Unknown Date";
     Summarizer.content := []; Summarizer.urls := urls;
     Summarizer.summary := py "No content to summarize or OpenAI not configured";
     Summarizer.key_points := []; Summarizer.action_items := [];
     Summarizer.sentiment := py "neutral" |}.

Definition extractor_email (sender : str) (urls : list str) : Extractor.email :=
  {| Extractor.id := py "id"; Extractor.subject := py "No Subject";
     Extractor.sender := sender; Extractor.date := py "Unknown Date";
     Extractor.content := []; Extractor.urls := urls;
     Extractor.url_count := length urls |}.

(** The first [text/plain] part and the last [text/html] part of a list. *)
Definition first_plain (ps : list Gmail.part) : option Gmail.part :=
  head (filter (λ p, Gmail.mimeType p = py "text/plain") ps).

Definition last_html (ps : list Gmail.part) : option Gmail.part :=
  last (filter (λ p, Gmail.mimeType p = py "text/html") ps).

(** The body that the selection policy names for a message. *)
Definition policy_body (message : Gmail.payload) : str :=
  match Gmail.parts message with
  | Some ps =>
      match first_plain ps with
      | Some p => Gmail.data_or_empty (Gmail.part_data p)
      | None =>
          match last_html ps with
          | Some p => Gmail.data_or_empty (Gmail.part_data p)
          | None => []
          end
      end
  | None => Gmail.data_or_empty (Gmail.body_data message)
  end.

(** No line boundary occurs in the text. *)
Definition single_line (s : str) : Prop := Forall (λ c, is_linebreak c = false) s.

(** No two neighbouring characters are both spaces. *)
Fixpoint no_adjacent_spaces (s : str) : Prop :=
  match s with
  | [] => True
  | c1 :: s' =>
      match s' with
      | [] => True
      | c2 :: _ => ¬ (c1 = 32 ∧ c2 = 32) ∧ no_adjacent_spaces s'
      end
  end.

(** The two-space sequence does not occur in the text. *)
Definition no_double_space (s : str) : Prop :=
  ∀ pre post, s ≠ pre ++ 32 :: 32 :: post.

(** The text neither starts nor ends with whitespace. *)
Definition trimmed (s : str) : Prop :=
  (∀ c, head s = Some c → isspace c = false) ∧
  (∀ c, last s = Some c → isspace c = false).

Definition whitespace_normalized (s : str) : Prop :=
  single_line s ∧ no_double_space s ∧ trimmed s.

(** The clean-up of whitespace at the end of [clean_email_content]. *)
Definition collapse_whitespace (text : str) : str :=
  join_sp (filter (λ chunk, nonempty chunk = true)
             (map strip (concat (map split_2sp (map strip (splitlines text)))))).

(** What every chunk that [clean_email_content] joins looks like. *)
Definition chunk_ok (chunk : str) : Prop :=
  chunk ≠ [] ∧ trimmed chunk ∧ single_line chunk ∧ no_adjacent_spaces chunk.

(** Stand-ins for the library functions in closed examples: a UTF-8
    decoder for ASCII octets, and the text of a document without markup. *)
Definition decode_ascii (b : bytes) : result str :=
  if forallb (λ c, c <? 128) b then Ret b else Raise UnicodeDecodeError.

Definition text_without_markup (content : str) : result str := Ret content.

(** A document that opens with a marked section, [<![name ...].  After
    the three characters the parser of [html.parser] reads a name
    ([_scan_name]: a letter, then letters, digits, [-], [_] and [.], then
    whitespace); at the end of the text it waits for more input, and it
    fails an assertion when there is no name or when the name, in lower
    case, is none of the keywords it knows ([parse_marked_section]).
    [bs4] raises [ParserRejectedMarkup] for a failed assertion. *)
Definition is_letter (c : char) : bool :=
  ((ch "a" <=? c) && (c <=? ch "z")) || ((ch "A" <=? c) && (c <=? ch "Z")).

Definition is_name_char (c : char) : bool :=
  is_letter c || ((ch "0" <=? c) && (c <=? ch "9")) ||
  (c =? ch "-") || (c =? ch "_") || (c =? ch ".").

Definition ascii_lower (c : char) : char :=
  if (ch "A" <=? c) && (c <=? ch "Z") then c + 32 else c.

Fixpoint skip_while (p : char → bool) (s : str) : str :=
  match s with
  | c :: s' => if p c then skip_while p s' else s
  | [] => []
  end.

Fixpoint take_while (p : char → bool) (s : str) : str :=
  match s with
  | c :: s' => if p c then c :: take_while p s' else []
  | [] => []
  end.

Definition marked_section_keywords : list str :=
  [py "temp"; py "cdata"; py "ignore"; py "include"; py "rcdata";
   py "if"; py "else"; py "endif"].

Definition marked_section_rejected (content : str) : bool :=
  match content with
  | 60 :: 33 :: 91 :: rest =>
      match rest with
      | [] => false
      | c :: _ =>
          if is_letter c then
            let name := take_while is_name_char rest in
            let after := skip_while isspace (skip_while is_name_char rest) in
            nonempty after &&
            negb (bool_decide (map ascii_lower name ∈ marked_section_keywords))
          else true
      end
  | _ => false
  end.

(** Stand-in for the parser in closed examples: a document that opens
    with a marked section the parser rejects raises; any other document
    is taken as text without markup. *)
Definition text_or_rejected (content : str) : result str :=
  if marked_section_rejected content then Raise ParserError else Ret content.

(** A message with three parts, and one without parts. *)
Definition three_parts : Gmail.payload :=
  {| Gmail.headers := [(py "From", py "a@b.c")];
     Gmail.parts := Some [
       {| Gmail.mimeType := py "text/html"; Gmail.part_data := Some (py "H1") |};
       {| Gmail.mimeType := py "text/plain"; Gmail.part_data := Some (py "P1") |};
       {| Gmail.mimeType := py "text/plain"; Gmail.part_data := Some (py "P2") |}];
     Gmail.body_data := None |}.

Definition two_html_parts : Gmail.payload :=
  {| Gmail.headers := [];
     Gmail.parts := Some [
       {| Gmail.mimeType := py "text/html"; Gmail.part_data := Some (py "H1") |};
       {| Gmail.mimeType := py "image/png"; Gmail.part_data := None |};
       {| Gmail.mimeType := py "text/html"; Gmail.part_data := Some (py "H2") |}];
     Gmail.body_data := None |}.

Definition unparted : Gmail.payload :=
  {| Gmail.headers := []; Gmail.parts := None; Gmail.body_data := Some (py "B") |}.

(** The characters of a text that are not whitespace, in order. *)
Definition visible (s : str) : str := filter (λ c, isspace c = false) s.

(** [urlparse] accepts [url] and gives the network location [domain]. *)
Definition has_domain (urlparse_netloc : str → result str) (domain url : str) : bool :=
  match urlparse_netloc url with
  | Ret d => bool_decide (d = domain)
  | Raise _ => false
  end.

(** [v] is what the lookup of the header [name] gives: the value of the
    first header of that exact name, or [dflt] when there is none. *)
Definition first_header (hs : list (str * str)) (name dflt v : str) : Prop :=
  ((name ∉ hs.*1) ∧ v = dflt) ∨
  (∃ pre post, hs = pre ++ (name, v) :: post ∧ (name ∉ pre.*1)).

(** The record of a message that could not be read. *)
Definition empty_record (message_id : str) : Extractor.email :=
  {| Extractor.id := message_id; Extractor.subject := []; Extractor.sender := [];
     Extractor.date := []; Extractor.content := []; Extractor.urls := [];
     Extractor.url_count := 0 |}.

(** A service with two messages, the second of which cannot be retrieved. *)
Definition sample_service : Gmail.service :=
  {| Gmail.messages_list := λ query max_results, Ret (Some [py "m1"; py "m2"]);
     Gmail.messages_get := λ message_id,
       if bool_decide (message_id = py "m1") then
         Ret {| Gmail.headers := [(py "Subject", py "Hi"); (py "From", py "a@b.c")];
                Gmail.parts := None;
                Gmail.body_data := Some (py "see  http://a.com/x  now") |}
       else Raise ValueError |}.

(** A service with one message whose cleaned text is longer than the
    stored content: five hundred letters, then a URL. *)
Definition long_text : str := repeat (ch "a") 500 ++ py " http://a.com/x".

Definition long_message_service : Gmail.service :=
  {| Gmail.messages_list := λ query max_results, Ret (Some [py "m1"]);
     Gmail.messages_get := λ message_id,
       Ret {| Gmail.headers := [(py "Subject", py "Hi")];
              Gmail.parts := None;
              Gmail.body_data := Some long_text |} |}.

(** A message whose text sits inside a nested [multipart] part, and one
    whose [text/plain] part has no data. *)
Definition nested_multipart : Gmail.payload :=
  {| Gmail.headers := [(py "Subject", py "Hi")];
     Gmail.parts := Some [
       {| Gmail.mimeType := py "multipart/alternative"; Gmail.part_data := None |};
       {| Gmail.mimeType := py "application/pdf"; Gmail.part_data := Some (py "JVBERi0") |}];
     Gmail.body_data := None |}.

(** * Properties *)

(** ** The embedding at work *)

Section Examples.

Example splitlines_crlf :
  splitlines (N_of_ascii <$> ["a"; "013"; "010"; "b"; "010"; "010"; "c"; "010"]%char)
  = [py "a"; py "b"; []; py "c"].
Proof. reflexivity. Qed.

Example split_2sp_three_spaces : split_2sp (py "a   b  c") = [py "a"; py " b"; py "c"].
Proof. reflexivity. Qed.

Example strip_both_ends : strip (py "  a b  ") = py "a b".
Proof. reflexivity. Qed.

Example b64_hello : Base64.urlsafe_b64decode (py "SGVsbG8gV29ybGQ=") = Ret (py "Hello World").
Proof. reflexivity. Qed.

Example b64_urlsafe_alphabet : Base64.urlsafe_b64decode (py "-_-_") = Ret [251; 255; 191].
Proof. reflexivity. Qed.

Example b64_one_extra_character : Base64.urlsafe_b64decode (py "SGVsb") = Raise BinasciiError.
Proof. reflexivity. Qed.

Example netloc_example :
  Urllib.netloc (py "https://example.com/page?a=1") = Ret (py "example.com").
Proof. reflexivity. Qed.

Example netloc_no_scheme : Urllib.netloc (py "example.com/page") = Ret [].
Proof. reflexivity. Qed.

Example netloc_bracket : Urllib.netloc (py "http://[::1/x") = Raise ValueError.
Proof. reflexivity. Qed.

(** Base64 content is decoded first; two spaces and line ends separate
    the chunks that are joined by single spaces. *)
Example clean_decoded :
  Summarizer.clean_email_content Base64.urlsafe_b64decode decode_ascii
    text_without_markup (py "SGVsbG8gIFdvcmxkCiBmb28g")
  = Ret (py "Hello World foo").
Proof. reflexivity. Qed.

Example clean_literal :
  Summarizer.clean_email_content Base64.urlsafe_b64decode decode_ascii
    text_without_markup (py "Hello   World !")
  = Ret (py "Hello World !").
Proof. reflexivity. Qed.

Example findall_two :
  Re.findall Summarizer.url_pattern (py "a http://x.y/z?q=1#frag https://w.v, httpx://no")
  = [py "http://x.y/z?q=1"; py "https://w.v,"].
Proof. reflexivity. Qed.

Example findall_percent :
  Re.findall Summarizer.url_pattern (py "http://a/%zz%4 http://")
  = [py "http://a/%zz%4"].
Proof. reflexivity. Qed.

Example sorted_ties_keep_order :
  sorted_by_count_desc [(py "B", 2%nat); (py "C", 1%nat); (py "A", 2%nat); (py "D", 3%nat)]
  = [(py "D", 3%nat); (py "B", 2%nat); (py "A", 2%nat); (py "C", 1%nat)].
Proof. reflexivity. Qed.

Example count_into_order :
  count_into [] [py "C"; py "A"; py "A"] = [(py "C", 1%nat); (py "A", 2%nat)].
Proof. reflexivity. Qed.

Example body_of_three_parts :
  Summarizer.get_email_content Base64.urlsafe_b64decode decode_ascii
    text_without_markup three_parts
  = (py "P1", py "No Subject", py "a@b.c", py "Unknown Date").
Proof. reflexivity. Qed.

End Examples.

(** ** The digest dictionaries *)

Section DigestFacts.

Lemma foldl_extend {A} (f : A → list str) (l : list A) (acc : list str) :
  foldl (λ acc x, acc ++ f x) acc l = acc ++ concat (map f l).
Proof.
  revert acc. induction l as [|x l IH]; intros acc; simpl.
  - by rewrite app_nil_r.
  - by rewrite IH, app_assoc.
Qed.

Lemma list_to_set_concat_urls (ls : list (list str)) :
  (list_to_set (concat ls) : gset str) = ⋃ (map list_to_set ls).
Proof.
  induction ls as [|l ls IH]; simpl; [done|].
  by rewrite list_to_set_app_L, IH.
Qed.

Lemma list_of_set_NoDup (xs : list str) : NoDup (list_of_set xs).
Proof. unfold list_of_set. apply NoDup_elements. Qed.

Lemma list_of_set_elem (xs : list str) (x : str) : x ∈ list_of_set xs ↔ x ∈ xs.
Proof. unfold list_of_set. by rewrite elem_of_elements, elem_of_list_to_set. Qed.

Lemma list_of_set_to_set (xs : list str) :
  (list_to_set (list_of_set xs) : gset str) = list_to_set xs.
Proof. unfold list_of_set. apply list_to_set_elements_L. Qed.

Lemma list_of_set_length (xs : list str) : (length (list_of_set xs) ≤ length xs)%nat.
Proof.
  apply submseteq_length, NoDup_submseteq; [apply list_of_set_NoDup|].
  intros x. by rewrite list_of_set_elem.
Qed.


Lemma unique_urls_of_list_of_set (urlss : list (list str)) :
  unique_urls_of urlss (list_of_set (concat urlss)).
Proof.
  split; [apply list_of_set_NoDup|]. split.
  - by rewrite list_of_set_to_set, list_to_set_concat_urls.
  - etrans; [apply list_of_set_length|]. by rewrite length_concat.
Qed.

End DigestFacts.

(** ** The matcher *)

Section MatcherFacts.
Import Re.

Lemma orelse_Some {A} (a b : option A) (x : A) :
  orelse a b = Some x ↔ a = Some x ∨ (a = None ∧ b = Some x).
Proof.
  destruct a as [y|]; simpl; split.
  - intros [= ->]. by left.
  - by intros [?|[? _]].
  - intros ->. by right.
  - by intros [?|[_ ?]].
Qed.

(** Whatever a match hands to its continuation is a suffix of the input. *)
Lemma plus_loop_suffix (body : str → (str → option str) → option str) :
  (∀ s k x, body s k = Some x → ∃ s', s' `suffix_of` s ∧ k s' = Some x) →
  ∀ fuel s k x, plus_loop body k fuel s = Some x →
    ∃ s', s' `suffix_of` s ∧ k s' = Some x.
Proof.
  intros Hbody fuel. induction fuel as [|fuel IH]; intros s k x; simpl; [done|].
  intros H. apply Hbody in H as (s1 & Hs1 & H).
  case_bool_decide.
  - apply orelse_Some in H as [H|[_ H]].
    + apply IH in H as (s2 & Hs2 & H). exists s2. split; [by etrans|done].
    + by exists s1.
  - by exists s1.
Qed.

Lemma exec_suffix (r : regex) (s : str) (k : str → option str) (x : str) :
  exec r s k = Some x → ∃ s', s' `suffix_of` s ∧ k s' = Some x.
Proof.
  revert s k x. induction r as [c|items|r1 IH1 r2 IH2|r1 IH1 r2 IH2|r IH|r IH];
    intros s k x.
  - simpl. destruct s as [|d s]; [done|]. destruct (d =? c); [|done].
    intros H. exists s. split; [apply suffix_cons_r; done|done].
  - simpl. destruct s as [|d s]; [done|]. destruct (in_set items d); [|done].
    intros H. exists s. split; [apply suffix_cons_r; done|done].
  - simpl. intros H. apply IH1 in H as (s1 & Hs1 & H).
    apply IH2 in H as (s2 & Hs2 & H).
    exists s2. split; [by etrans|done].
  - simpl. intros H. apply orelse_Some in H as [H|[_ H]]; eauto.
  - simpl. intros H. apply orelse_Some in H as [H|[_ H]]; eauto.
  - change (exec (Plus r) s k) with (plus_loop (exec r) k (S (length s)) s).
    apply plus_loop_suffix. exact IH.
Qed.

Lemma suffix_take_length (s rest : str) :
  rest `suffix_of` s → s = take (length s - length rest) s ++ rest.
Proof.
  intros [pre ->]. rewrite length_app.
  replace (length pre + length rest - length rest)%nat with (length pre) by lia.
  by rewrite take_app_length.
Qed.

Lemma match_at_Some (r : regex) (s m rest : str) :
  match_at r s = Some (m, rest) → s = m ++ rest ∧ exec r s Some = Some rest.
Proof.
  unfold match_at. destruct (exec r s Some) as [rest'|] eqn:E; [|done].
  intros [= <- <-]. split; [|done].
  apply exec_suffix in E as (s' & Hs' & [= ->]). by apply suffix_take_length.
Qed.

(** The fuel of [findall] is never exhausted. *)
Lemma findall_from_fuel (r : regex) (fuel : nat) (s : str) :
  (length s < fuel)%nat → findall_from r fuel s = findall r s.
Proof.
  unfold findall. remember (S (length s)) as fuel' eqn:Hf.
  assert (length s < fuel')%nat as Hlt by lia. clear Hf.
  revert fuel' s Hlt. induction fuel as [|fuel IH]; intros fuel' s Hlt Hlt'; [lia|].
  destruct fuel' as [|fuel']; [lia|]. simpl.
  destruct (match_at r s) as [[m rest]|] eqn:E.
  - apply match_at_Some in E as [-> _].
    destruct m as [|c m].
    + destruct rest as [|c rest]; [done|]. simpl in *. f_equal. apply IH; lia.
    + f_equal. simpl in *. rewrite length_app in *. apply IH; lia.
  - destruct s as [|c s]; [done|]. simpl in *. apply IH; lia.
Qed.

(** Every reported match is a match at some position of the text. *)
Lemma findall_from_elem (r : regex) (fuel : nat) (s u : str) :
  u ∈ findall_from r fuel s →
  ∃ pre post, s = pre ++ u ++ post ∧ exec r (u ++ post) Some = Some post.
Proof.
  revert s. induction fuel as [|fuel IH]; intros s; simpl.
  { by intros ?%elem_of_nil. }
  destruct (match_at r s) as [[m rest]|] eqn:E.
  - apply match_at_Some in E as [-> E].
    destruct m as [|c m].
    + intros [->|H]%elem_of_cons.
      * by exists [], rest.
      * simpl in *. destruct rest as [|c rest]; [by apply elem_of_nil in H|].
        apply IH in H as (pre & post & -> & H). by exists (c :: pre), post.
    + intros [->|H]%elem_of_cons.
      * by exists [], rest.
      * apply IH in H as (pre & post & -> & H).
        exists ((c :: m) ++ pre), post. by rewrite <-app_assoc.
  - destruct s as [|c s]; [by intros ?%elem_of_nil|].
    intros H. apply IH in H as (pre & post & -> & H). by exists (c :: pre), post.
Qed.

Lemma exec_lits (l : str) (r : regex) (s : str) (k : str → option str) (x : str) :
  exec (lits l r) s k = Some x ↔ ∃ s', s = l ++ s' ∧ exec r s' k = Some x.
Proof.
  revert s. induction l as [|c l IH]; intros s; simpl.
  - naive_solver.
  - destruct s as [|d s]; [naive_solver|].
    destruct (N.eqb_spec d c) as [->|Hne].
    + rewrite IH. naive_solver.
    + naive_solver.
Qed.

End MatcherFacts.

(** ** The URL pattern *)


Section PatternFacts.
Import Re Summarizer.

Lemma url_char_spec (c : char) :
  url_char c = true ↔ c = 33 ∨ (36 ≤ c ∧ c ≤ 95) ∨ (97 ≤ c ∧ c ≤ 122).
Proof.
  unfold url_char.
  rewrite !orb_true_iff, !andb_true_iff, !N.leb_le, N.eqb_eq. tauto.
Qed.

Ltac bool_to_prop :=
  rewrite ?orb_true_iff, ?andb_true_iff, ?orb_false_iff, ?andb_false_iff,
    ?N.leb_le, ?N.leb_gt, ?N.eqb_eq, ?N.eqb_neq in *.

(** The four one-character alternatives together accept exactly
    [url_char]; the percent sign is among them. *)
Lemma url_body_sets (c : char) :
  in_set [Range (ch "a") (ch "z"); Range (ch "A") (ch "Z")] c
  || in_set [Range (ch "0") (ch "9")] c
  || in_set [Range (ch "$") (ch "_"); One (ch "@"); One (ch ".");
             One (ch "&"); One (ch "+")] c
  || in_set [One (ch "!"); One (ch "*"); One (ch "\"); One (ch "(");
             One (ch "\"); One (ch ")"); One (ch ",")] c
  = url_char c.
Proof.
  apply eq_true_iff_eq. rewrite url_char_spec.
  unfold in_set, existsb, in_item.
  change (ch "a") with 97; change (ch "z") with 122; change (ch "A") with 65;
  change (ch "Z") with 90; change (ch "0") with 48; change (ch "9") with 57;
  change (ch "$") with 36; change (ch "_") with 95; change (ch "@") with 64;
  change (ch ".") with 46; change (ch "&") with 38; change (ch "+") with 43;
  change (ch "!") with 33; change (ch "*") with 42; change (ch "\") with 92;
  change (ch "(") with 40; change (ch ")") with 41; change (ch ",") with 44.
  bool_to_prop. lia.
Qed.

(** One iteration of the loop, under a continuation that cannot fail:
    one [url_char] is consumed.  The three-character alternative is never
    needed, since the percent sign is matched by the range before it. *)
Lemma exec_url_body (s : str) (k : str → option str) :
  (∀ s', is_Some (k s')) →
  exec url_body s k =
    match s with
    | c :: s' => if url_char c then k s' else None
    | [] => None
    end.
Proof.
  intros Hk. destruct s as [|c s]; [done|].
  rewrite <-(url_body_sets c). unfold url_body.
  cbn [exec]. destruct (Hk s) as [x ->].
  repeat match goal with
         | |- context [in_set ?l c] =>
             destruct (in_set l c) eqn:?; cbn [orelse orb]; try done
         end.
  destruct (N.eqb_spec c (ch "%")) as [->|]; [exfalso|done].
  match goal with H : in_set _ _ = false |- _ => by vm_compute in H end.
Qed.

Lemma skip_url_chars_stops (s : str) : stops (skip_url_chars s).
Proof.
  induction s as [|c s IH]; simpl; [by left|].
  destruct (url_char c) eqn:E; [done|]. right. by exists c, s.
Qed.

(** The loop consumes a non-empty, maximal run of [url_char]. *)
Lemma plus_url_body (fuel : nat) (s : str) :
  (length s < fuel)%nat →
  plus_loop (exec url_body) Some fuel s =
    match s with
    | c :: s' => if url_char c then Some (skip_url_chars s') else None
    | [] => None
    end.
Proof.
  revert s. induction fuel as [|fuel IH]; intros s Hlen; [lia|].
  cbn [plus_loop]. rewrite exec_url_body.
  - destruct s as [|c s]; [done|]. destruct (url_char c); [|done].
    rewrite bool_decide_true by (simpl; lia).
    rewrite IH by (simpl in Hlen; lia).
    destruct s as [|d s]; [done|]. simpl. by destruct (url_char d).
  - intros s'. case_bool_decide; [|done].
    destruct (plus_loop _ _ _ _); simpl; eauto.
Qed.

Lemma skip_url_chars_split (s : str) :
  ∃ run, s = run ++ skip_url_chars s ∧ Forall (λ c, url_char c = true) run.
Proof.
  induction s as [|c s (run & IH & Hrun)]; simpl; [by exists []|].
  destruct (url_char c) eqn:E; [|by exists []].
  exists (c :: run). split; [by rewrite IH at 1|by constructor].
Qed.

Lemma skip_url_chars_app (run rest : str) :
  Forall (λ c, url_char c = true) run → stops rest →
  skip_url_chars (run ++ rest) = rest.
Proof.
  intros Hrun Hrest. induction Hrun as [|c run Hc _ IH]; simpl.
  - destruct Hrest as [->|(c & s' & -> & Hc)]; [done|]. simpl. by rewrite Hc.
  - by rewrite Hc.
Qed.

(** What the pattern matches after the scheme name: the colon and two
    slashes, then a non-empty maximal run of [url_char]. *)
Lemma exec_url_tail (t rest : str) :
  exec (lits (py "://") (Plus url_body)) t Some = Some rest ↔
  ∃ body, t = py "://" ++ body ++ rest ∧ body ≠ [] ∧
          Forall (λ c, url_char c = true) body ∧ stops rest.
Proof.
  rewrite exec_lits. split.
  - intros (t' & -> & H).
    change (exec (Plus url_body) t' Some)
      with (plus_loop (exec url_body) Some (S (length t')) t') in H.
    rewrite plus_url_body in H by lia.
    destruct t' as [|c t']; [done|]. destruct (url_char c) eqn:Hc; [|done].
    injection H as <-. destruct (skip_url_chars_split t') as (run & Ht' & Hrun).
    exists (c :: run). split_and!.
    + simpl. by rewrite <-Ht'.
    + done.
    + by constructor.
    + apply skip_url_chars_stops.
  - intros (body & -> & Hne & Hbody & Hrest). exists (body ++ rest). split; [done|].
    change (exec (Plus url_body) (body ++ rest) Some)
      with (plus_loop (exec url_body) Some (S (length (body ++ rest))) (body ++ rest)).
    rewrite plus_url_body by lia.
    destruct Hbody as [|c body Hc Hbody]; [done|]. simpl. rewrite Hc.
    by rewrite skip_url_chars_app.
Qed.

(** A match of [url_pattern] at the front of [s], leaving [rest]: the
    scheme, a non-empty run of [url_char], and [rest] ends the run. *)
Lemma exec_url_pattern (s rest : str) :
  exec url_pattern s Some = Some rest ↔
  ∃ scheme body, s = scheme ++ body ++ rest ∧
    (scheme = py "http://" ∨ scheme = py "https://") ∧
    body ≠ [] ∧ Forall (λ c, url_char c = true) body ∧ stops rest.
Proof.
  unfold url_pattern. rewrite exec_lits. cbn [exec]. split.
  - intros (s1 & -> & H). apply orelse_Some in H as [H|[_ H]].
    + destruct s1 as [|c s1]; cbn [exec] in H; [done|].
      unfold in_set, existsb, in_item in H. rewrite orb_false_r in H.
      destruct (N.eqb_spec c (ch "s")) as [->|]; [|done].
      apply exec_url_tail in H as (body & -> & ?). exists (py "https://"), body.
      split; [done|]. split; [by right|done].
    + apply exec_url_tail in H as (body & -> & ?). exists (py "http://"), body.
      split; [done|]. split; [by left|done].
  - intros (scheme & body & -> & [->| ->] & Hbody).
    + exists (py "://" ++ body ++ rest). split; [done|].
      apply orelse_Some. right. split; [done|].
      apply exec_url_tail. by exists body.
    + exists (ch "s" :: py "://" ++ body ++ rest). split; [done|].
      apply orelse_Some. left.
      change (exec (lits (py "://") (Plus url_body)) (py "://" ++ body ++ rest) Some
              = Some rest).
      apply exec_url_tail. by exists body.
Qed.

End PatternFacts.

(** ** Counting and ranking *)

Section CountFacts.

Lemma first_seen_elem (xs : list str) (k : str) : k ∈ first_seen xs ↔ k ∈ xs.
Proof.
  induction xs as [|x xs IH]; simpl; [done|].
  rewrite !elem_of_cons, list_elem_of_filter, IH.
  destruct (decide (k = x)); naive_solver.
Qed.

Lemma first_seen_NoDup (xs : list str) : NoDup (first_seen xs).
Proof.
  induction xs as [|x xs IH]; simpl; [constructor|].
  constructor; [|by apply NoDup_filter].
  rewrite list_elem_of_filter. naive_solver.
Qed.

Lemma first_seen_snoc (xs : list str) (x : str) :
  first_seen (xs ++ [x]) =
  if decide (x ∈ xs) then first_seen xs else first_seen xs ++ [x].
Proof.
  induction xs as [|y xs IH]; simpl.
  - done.
  - rewrite IH. destruct (decide (x = y)) as [->|Hne].
    + rewrite (decide_True (P := y ∈ y :: xs)) by apply list_elem_of_here.
      case_decide; [done|].
      rewrite filter_app, filter_cons_False by naive_solver.
      by rewrite filter_nil, app_nil_r.
    + destruct (decide (x ∈ xs)) as [Hin|Hin].
      * by rewrite decide_True by (by apply list_elem_of_further).
      * rewrite decide_False by (rewrite elem_of_cons; naive_solver).
        by rewrite filter_app, filter_cons_True.
Qed.

Lemma count_of_snoc (xs : list str) (x k : str) :
  count_of k (xs ++ [x]) = (count_of k xs + if decide (x = k) then 1 else 0)%nat.
Proof.
  unfold count_of. rewrite filter_app, length_app. f_equal.
  case_decide.
  - by rewrite filter_cons_True.
  - by rewrite filter_cons_False.
Qed.

Lemma count_of_not_elem (xs : list str) (k : str) : k ∉ xs → count_of k xs = 0%nat.
Proof.
  unfold count_of. induction xs as [|x xs IH]; [done|].
  rewrite not_elem_of_cons. intros [Hne Hin].
  rewrite filter_cons_False by done. by apply IH.
Qed.

Lemma first_index_snoc (xs : list str) (x k : str) :
  k ∈ xs → first_index k (xs ++ [x]) = first_index k xs.
Proof.
  induction xs as [|y xs IH]; simpl; [by intros ?%elem_of_nil|].
  case_bool_decide; [done|].
  rewrite elem_of_cons. intros [->|Hin]; [done|]. by rewrite IH.
Qed.

Lemma first_index_lt (xs : list str) (k : str) :
  k ∈ xs → (first_index k xs < length xs)%nat.
Proof.
  induction xs as [|y xs IH]; simpl; [by intros ?%elem_of_nil|].
  case_bool_decide; [lia|].
  rewrite elem_of_cons. intros [->|Hin]; [done|]. apply IH in Hin. lia.
Qed.

Lemma first_index_new (xs : list str) (x : str) :
  x ∉ xs → first_index x (xs ++ [x]) = length xs.
Proof.
  induction xs as [|y xs IH]; simpl.
  - by rewrite bool_decide_true.
  - rewrite not_elem_of_cons. intros [Hne Hin].
    rewrite bool_decide_false by done. by rewrite IH.
Qed.

(** The dictionary operations on a dictionary given by its key list. *)
Lemma dict_get_keyed (f : str → nat) (ks : list str) (k : str) :
  dict_get (map (λ s, (s, f s)) ks) k 0%nat = if decide (k ∈ ks) then f k else 0%nat.
Proof.
  induction ks as [|s ks IH]; simpl; [done|].
  case_bool_decide as Hs.
  - subst. by rewrite decide_True by apply list_elem_of_here.
  - rewrite IH. destruct (decide (k ∈ ks)) as [Hin|Hin].
    + by rewrite decide_True by (by apply list_elem_of_further).
    + by rewrite decide_False by (rewrite elem_of_cons; naive_solver).
Qed.

Lemma dict_set_keyed_old (f g : str → nat) (ks : list str) (k : str) :
  NoDup ks → k ∈ ks → (∀ s, s ≠ k → g s = f s) →
  dict_set (map (λ s, (s, f s)) ks) k (g k) = map (λ s, (s, g s)) ks.
Proof.
  intros Hnd Hin Hg.
  induction Hnd as [|s ks Hs Hnd IH]; simpl; [by apply elem_of_nil in Hin|].
  case_bool_decide as Hsk.
  - subst s. f_equal. apply map_ext_in. intros s Hin'%list_elem_of_In.
    rewrite Hg; [done|]. by intros ->.
  - rewrite (Hg s) by done. f_equal. apply IH.
    apply elem_of_cons in Hin as [->|]; done.
Qed.

Lemma dict_set_keyed_new (f : str → nat) (ks : list str) (k : str) (v : nat) :
  k ∉ ks →
  dict_set (map (λ s, (s, f s)) ks) k v = map (λ s, (s, f s)) ks ++ [(k, v)].
Proof.
  induction ks as [|s ks IH]; simpl; [done|].
  rewrite not_elem_of_cons. intros [Hne Hin].
  rewrite bool_decide_false by done. by rewrite IH.
Qed.

Lemma count_into_snoc (d : dict nat) (xs : list str) (x : str) :
  count_into d (xs ++ [x]) =
  dict_set (count_into d xs) x (dict_get (count_into d xs) x 0 + 1)%nat.
Proof. unfold count_into. by rewrite foldl_snoc. Qed.

(** The counting loop yields the distinct keys in order of first
    appearance, each with the number of its occurrences. *)
Lemma count_into_first_seen (xs : list str) :
  count_into [] xs = map (λ k, (k, count_of k xs)) (first_seen xs).
Proof.
  induction xs as [|x xs IH] using rev_ind; [done|].
  rewrite count_into_snoc, IH, dict_get_keyed, first_seen_snoc.
  destruct (decide (x ∈ xs)) as [Hin|Hin].
  - rewrite decide_True by (by apply first_seen_elem).
    replace (count_of x xs + 1)%nat with (count_of x (xs ++ [x]))
      by (rewrite count_of_snoc, decide_True; done).
    apply (dict_set_keyed_old (λ k, count_of k xs) (λ k, count_of k (xs ++ [x]))).
    + apply first_seen_NoDup.
    + by apply first_seen_elem.
    + intros s Hs. cbv beta. rewrite count_of_snoc, decide_False; [lia|].
      by intros ->.
  - rewrite decide_False by (by rewrite first_seen_elem).
    rewrite dict_set_keyed_new by (by rewrite first_seen_elem).
    rewrite map_app. simpl. f_equal.
    + apply map_ext_in. intros s Hs%list_elem_of_In. rewrite first_seen_elem in Hs.
      rewrite count_of_snoc, decide_False; [f_equal; lia|]. by intros ->.
    + by rewrite count_of_snoc, decide_True, count_of_not_elem.
Qed.

End CountFacts.

Section SortFacts.

Lemma insert_desc_Permutation (x : str * nat) (l : list (str * nat)) :
  insert_desc x l ≡ₚ x :: l.
Proof.
  induction l as [|y l IH]; simpl; [done|].
  destruct (x.2 <? y.2)%nat; [|done].
  rewrite IH. apply Permutation_swap.
Qed.

Lemma sorted_by_count_desc_Permutation (l : list (str * nat)) :
  sorted_by_count_desc l ≡ₚ l.
Proof.
  induction l as [|x l IH]; simpl; [done|].
  by rewrite insert_desc_Permutation, IH.
Qed.

Variable T : relation (str * nat).

Lemma insert_desc_sorted (x : str * nat) (l : list (str * nat)) :
  StronglySorted (by_count_then T) l → Forall (T x) l →
  StronglySorted (by_count_then T) (insert_desc x l).
Proof.
  intros Hl Hx. induction Hl as [|y l Hl IH Hy]; simpl.
  - repeat constructor.
  - apply Forall_cons in Hx as [Hxy Hx].
    destruct (Nat.ltb_spec x.2 y.2) as [Hlt|Hge].
    + constructor; [by apply IH|].
      rewrite insert_desc_Permutation. constructor; [by left|done].
    + constructor; [by constructor|]. constructor.
      * destruct (decide (x.2 = y.2)) as [Heq|Hne]; [by right|left; lia].
      * rewrite Forall_forall in Hy, Hx |- *. intros z Hz.
        destruct (Hy z Hz) as [Hlt|[Heq _]].
        -- left. lia.
        -- destruct (decide (x.2 = z.2)) as [Heq'|Hne]; [right|left; lia].
           split; [done|]. by apply Hx.
Qed.

(** The sort is stable: a list in [T] order comes out ordered by
    descending count, items of equal count still in [T] order. *)
Lemma sorted_by_count_desc_stable (l : list (str * nat)) :
  StronglySorted T l → StronglySorted (by_count_then T) (sorted_by_count_desc l).
Proof.
  induction 1 as [|x l Hl IH Hx]; simpl; [constructor|].
  apply insert_desc_sorted; [done|].
  by rewrite sorted_by_count_desc_Permutation.
Qed.

End SortFacts.

Section RankingFacts.

Lemma StronglySorted_filter_impl {A} (R R' : relation A) (P : A → Prop)
    `{∀ x, Decision (P x)} (l : list A) :
  (∀ a b, P a → P b → R a b → R' a b) →
  StronglySorted R l → StronglySorted R' (filter P l).
Proof.
  intros HR. induction 1 as [|x l Hl IH Hx]; [constructor|].
  rewrite filter_cons. case_decide; [|done].
  constructor; [done|].
  rewrite Forall_forall in Hx |- *.
  intros y [Hy Hin]%list_elem_of_filter. apply HR; auto.
Qed.

Lemma StronglySorted_map {A B} (R : relation B) (f : A → B) (l : list A) :
  StronglySorted (λ a b, R (f a) (f b)) l → StronglySorted R (map f l).
Proof.
  induction 1 as [|x l Hl IH Hx]; simpl; constructor; [done|].
  apply Forall_fmap. exact Hx.
Qed.

Lemma first_seen_sorted (xs : list str) :
  StronglySorted (λ a b, (first_index a xs < first_index b xs)%nat) (first_seen xs).
Proof.
  induction xs as [|x xs IH]; simpl; [constructor|]. constructor.
  - eapply StronglySorted_filter_impl; [|exact IH].
    intros a b Ha Hb Hab. simpl in *. rewrite !bool_decide_false by done. lia.
  - rewrite Forall_forall. intros y [Hy _]%list_elem_of_filter.
    rewrite bool_decide_true by done. rewrite bool_decide_false by done. lia.
Qed.

Lemma keyed_fst (f : str → nat) (ks : list str) :
  (map (λ k, (k, f k)) ks).*1 = ks.
Proof. induction ks as [|k ks IH]; [done|]. simpl. by f_equal. Qed.

(** Sorting the counting dictionary gives the ranking of the keys. *)
Lemma ranking_sorted_counts (xs : list str) :
  ranking xs (sorted_by_count_desc (count_into [] xs)).
Proof.
  rewrite count_into_first_seen. split_and!.
  - rewrite sorted_by_count_desc_Permutation.
    rewrite keyed_fst. apply first_seen_NoDup.
  - intros k n. rewrite sorted_by_count_desc_Permutation, list_elem_of_fmap.
    setoid_rewrite first_seen_elem. naive_solver.
  - apply (sorted_by_count_desc_stable
             (λ x y, (first_index x.1 xs < first_index y.1 xs)%nat)).
    apply StronglySorted_map. simpl. apply first_seen_sorted.
Qed.

(** A ranking is determined by its keys. *)
Lemma ranking_unique (keys : list str) (l1 l2 : list (str * nat)) :
  ranking keys l1 → ranking keys l2 → l1 = l2.
Proof.
  intros (Hnd1 & Hin1 & Hs1) (Hnd2 & Hin2 & Hs2).
  apply (StronglySorted_unique_strong (ranks_before keys)); [|done..|].
  - intros x y _ _ [Hxy|[Hxy Hxy']] [Hyx|[Hyx Hyx']]; lia.
  - apply NoDup_Permutation.
    + by apply NoDup_fmap_1 in Hnd1.
    + by apply NoDup_fmap_1 in Hnd2.
    + intros [k n]. by rewrite Hin1, Hin2.
Qed.

End RankingFacts.

(** ** Whitespace *)

Section WhitespaceFacts.

Lemma no_adjacent_spaces_app (a b : str) :
  no_adjacent_spaces (a ++ b) ↔
  no_adjacent_spaces a ∧ no_adjacent_spaces b ∧
  ¬ (last a = Some 32 ∧ head b = Some 32).
Proof.
  induction a as [|c1 a IH]; [simpl; naive_solver|].
  destruct a as [|c2 a].
  - destruct b as [|d b]; simpl; [naive_solver|].
    split.
    + intros [Hne Hb]. split_and!; [done..|]. intros [[= ->] [= ->]]. by apply Hne.
    + intros (_ & Hb & Hne). split; [|done]. intros [-> ->]. by apply Hne.
  - change (no_adjacent_spaces ((c1 :: c2 :: a) ++ b))
      with (¬ (c1 = 32 ∧ c2 = 32) ∧ no_adjacent_spaces ((c2 :: a) ++ b)).
    change (no_adjacent_spaces (c1 :: c2 :: a))
      with (¬ (c1 = 32 ∧ c2 = 32) ∧ no_adjacent_spaces (c2 :: a)).
    rewrite IH, last_cons_cons. tauto.
Qed.

Lemma no_adjacent_spaces_no_double (s : str) :
  no_adjacent_spaces s → no_double_space s.
Proof.
  intros H pre post ->. apply no_adjacent_spaces_app in H as (_ & H & _).
  simpl in H. naive_solver.
Qed.

Lemma lstrip_suffix (s : str) : ∃ pre, s = pre ++ lstrip s.
Proof.
  induction s as [|c s [pre IH]]; simpl; [by exists []|].
  destruct (isspace c); [|by exists []].
  exists (c :: pre). simpl. by rewrite <-IH.
Qed.

Lemma rstrip_prefix (s : str) : ∃ post, s = rstrip s ++ post.
Proof.
  unfold rstrip. destruct (lstrip_suffix (reverse s)) as [pre H].
  exists (reverse pre). rewrite <-reverse_app, <-H. by rewrite reverse_involutive.
Qed.

Lemma strip_infix (s : str) : ∃ pre post, s = pre ++ strip s ++ post.
Proof.
  unfold strip. destruct (lstrip_suffix s) as [pre Hpre].
  destruct (rstrip_prefix (lstrip s)) as [post Hpost].
  exists pre, post. by rewrite <-Hpost.
Qed.

Lemma lstrip_head (s : str) (c : char) : head (lstrip s) = Some c → isspace c = false.
Proof.
  induction s as [|d s IH]; simpl; [done|].
  destruct (isspace d) eqn:E; [done|]. simpl. by intros [= <-].
Qed.

Lemma rstrip_last (s : str) (c : char) : last (rstrip s) = Some c → isspace c = false.
Proof. unfold rstrip. rewrite last_reverse. apply lstrip_head. Qed.

Lemma strip_trimmed (s : str) : trimmed (strip s).
Proof.
  unfold strip. split; intros c Hc.
  - destruct (rstrip_prefix (lstrip s)) as [post Hpost].
    apply (lstrip_head s). rewrite Hpost.
    destruct (rstrip (lstrip s)) as [|d t]; [done|]. exact Hc.
  - by apply rstrip_last in Hc.
Qed.

Lemma strip_Forall (P : char → Prop) (s : str) : Forall P s → Forall P (strip s).
Proof.
  destruct (strip_infix s) as (pre & post & H). rewrite H at 1.
  rewrite !Forall_app. tauto.
Qed.

Lemma strip_no_adjacent_spaces (s : str) :
  no_adjacent_spaces s → no_adjacent_spaces (strip s).
Proof.
  destruct (strip_infix s) as (pre & post & H). rewrite H at 1.
  rewrite !no_adjacent_spaces_app. tauto.
Qed.

Lemma splitlines_go_single_line (cur : str) (after_cr : bool) (s : str) :
  single_line cur → Forall single_line (splitlines_go cur after_cr s).
Proof.
  revert cur after_cr. induction s as [|c s IH]; intros cur after_cr Hcur; simpl.
  - destruct cur; constructor; [done|constructor].
  - destruct (after_cr && (c =? 10)); [by apply IH|].
    destruct (is_linebreak c) eqn:E.
    + constructor; [done|]. apply IH. constructor.
    + apply IH. apply Forall_app. split; [done|]. by repeat constructor.
Qed.

Lemma splitlines_single_line (s : str) : Forall single_line (splitlines s).
Proof. apply splitlines_go_single_line. constructor. Qed.

Lemma split_2sp_go_cons2 (cur : str) (c1 c2 : char) (s2 : str) :
  split_2sp_go cur (c1 :: c2 :: s2) =
  if (c1 =? 32) && (c2 =? 32) then cur :: split_2sp_go [] s2
  else split_2sp_go (cur ++ [c1]) (c2 :: s2).
Proof. reflexivity. Qed.

Lemma split_2sp_go_Forall (P : char → Prop) (n : nat) (cur s : str) :
  (length s ≤ n)%nat → Forall P cur → Forall P s →
  Forall (Forall P) (split_2sp_go cur s).
Proof.
  revert cur s. induction n as [|n IH]; intros cur s Hn Hcur Hs.
  - destruct s; simpl in *; [|lia]. by repeat constructor.
  - destruct s as [|c1 [|c2 s2]].
    + by repeat constructor.
    + simpl. repeat constructor. by apply Forall_app.
    + rewrite split_2sp_go_cons2. simpl in Hn.
      apply Forall_cons in Hs as [H1 Hs].
      destruct ((c1 =? 32) && (c2 =? 32)).
      * constructor; [done|]. apply IH; [lia|constructor|].
        by apply Forall_cons in Hs as [_ ?].
      * apply IH; [simpl; lia| |done]. apply Forall_app. by repeat constructor.
Qed.

Lemma split_2sp_Forall (P : char → Prop) (s : str) :
  Forall P s → Forall (Forall P) (split_2sp s).
Proof. intros H. by apply (split_2sp_go_Forall P (length s)); [lia|constructor|]. Qed.

Lemma split_2sp_go_no_adjacent (n : nat) (cur s : str) :
  (length s ≤ n)%nat → no_adjacent_spaces cur →
  ¬ (last cur = Some 32 ∧ head s = Some 32) →
  Forall no_adjacent_spaces (split_2sp_go cur s).
Proof.
  revert cur s. induction n as [|n IH]; intros cur s Hn Hcur Hlast.
  - destruct s; simpl in *; [|lia]. by repeat constructor.
  - destruct s as [|c1 [|c2 s2]].
    + by repeat constructor.
    + simpl in *. repeat constructor. apply no_adjacent_spaces_app. by split_and!.
    + rewrite split_2sp_go_cons2. simpl in Hn, Hlast.
      destruct (N.eqb_spec c1 32) as [->|Hc1]; cbn [andb].
      * destruct (N.eqb_spec c2 32) as [->|Hc2].
        -- constructor; [done|]. apply IH; [lia|done|]. simpl. naive_solver.
        -- apply IH; [simpl; lia| |].
           ++ apply no_adjacent_spaces_app. by split_and!.
           ++ rewrite last_snoc. simpl. naive_solver.
      * apply IH; [simpl; lia| |].
        -- apply no_adjacent_spaces_app. by split_and!.
        -- rewrite last_snoc. simpl. naive_solver.
Qed.

Lemma split_2sp_no_adjacent (s : str) : Forall no_adjacent_spaces (split_2sp s).
Proof.
  apply (split_2sp_go_no_adjacent (length s)); [lia|done|]. simpl. naive_solver.
Qed.

End WhitespaceFacts.

Section JoinFacts.

Lemma join_sp_cons (c : str) (rest : list str) :
  rest ≠ [] → join_sp (c :: rest) = c ++ 32 :: join_sp rest.
Proof. by destruct rest. Qed.

Lemma join_sp_normal (chunks : list str) :
  Forall chunk_ok chunks →
  single_line (join_sp chunks) ∧ no_adjacent_spaces (join_sp chunks) ∧
  trimmed (join_sp chunks) ∧ (chunks ≠ [] → join_sp chunks ≠ []).
Proof.
  induction 1 as [|c rest (Hne & [Hhead Hlast] & Hline & Hsp) _ IH].
  { split_and!; [constructor|done|by split|done]. }
  destruct (decide (rest = [])) as [->|Hrest]; [by split_and!|].
  destruct IH as (IHline & IHsp & [IHhead IHlast] & IHne).
  specialize (IHne Hrest). rewrite join_sp_cons by done.
  destruct (join_sp rest) as [|j J] eqn:EJ; [done|].
  split_and!.
  - apply Forall_app. split; [done|]. by constructor.
  - apply no_adjacent_spaces_app. split_and!; [done| |].
    + split; [|done]. intros [_ ->].
      specialize (IHhead 32 eq_refl). by vm_compute in IHhead.
    + intros [Hc _]. specialize (Hlast 32 Hc). by vm_compute in Hlast.
  - split; intros d Hd.
    + apply Hhead. destruct c; [done|]. exact Hd.
    + apply IHlast. rewrite last_app, last_cons_cons in Hd.
      destruct (last (j :: J)) eqn:E; [done|]. by apply last_None in E.
  - by destruct c.
Qed.

Lemma collapse_chunks_ok (text : str) :
  Forall chunk_ok
    (filter (λ chunk, nonempty chunk = true)
       (map strip (concat (map split_2sp (map strip (splitlines text)))))).
Proof.
  apply Forall_forall. intros chunk [Hne Hin]%list_elem_of_filter.
  apply list_elem_of_fmap in Hin as (piece & -> & Hin).
  apply list_elem_of_In, in_concat in Hin as (pieces & Hpieces & Hin).
  apply list_elem_of_In, list_elem_of_fmap in Hpieces as (line' & -> & Hline').
  apply list_elem_of_fmap in Hline' as (line & -> & Hline).
  apply list_elem_of_In in Hin.
  split_and!.
  - by destruct (strip piece).
  - apply strip_trimmed.
  - apply strip_Forall.
    assert (Forall single_line (split_2sp (strip line))) as Hall.
    { apply split_2sp_Forall, strip_Forall.
      pose proof (splitlines_single_line text) as Hl.
      rewrite Forall_forall in Hl. by apply Hl. }
    rewrite Forall_forall in Hall. by apply Hall.
  - apply strip_no_adjacent_spaces.
    pose proof (split_2sp_no_adjacent (strip line)) as Hall.
    rewrite Forall_forall in Hall. by apply Hall.
Qed.

(** The clean-up yields one line, free of double spaces, trimmed. *)
Lemma collapse_whitespace_normalized (text : str) :
  whitespace_normalized (collapse_whitespace text).
Proof.
  destruct (join_sp_normal _ (collapse_chunks_ok text)) as (Hline & Hsp & Htrim & _).
  split_and!; [done| |done]. by apply no_adjacent_spaces_no_double.
Qed.

End JoinFacts.

(** * The claims *)

Section Extraction.
Import Re.

Lemma extract_urls_elem (text u : str) :
  u ∈ Summarizer.extract_urls_from_text text →
  ∃ pre post, text = pre ++ u ++ post ∧
              exec Summarizer.url_pattern (u ++ post) Some = Some post.
Proof.
  unfold Summarizer.extract_urls_from_text. rewrite list_of_set_elem.
  apply findall_from_elem.
Qed.

Lemma url_char_accepted (c : char) : url_char c = true ↔ accepted c.
Proof. apply url_char_spec. Qed.

Lemma extract_urls_maximal (text u : str) :
  u ∈ Summarizer.extract_urls_from_text text → maximal_url_match text u.
Proof.
  intros (pre & post & -> & H)%extract_urls_elem.
  apply exec_url_pattern in H as (scheme & body & Heq & Hscheme & Hne & Hbody & Hstop).
  rewrite app_assoc in Heq. apply app_inv_tail in Heq as ->.
  exists pre, scheme, body, post. split_and!; try done.
  - eapply Forall_impl; [exact Hbody|]. intros c. apply url_char_accepted.
  - destruct Hstop as [->|(c & post' & -> & Hc)]; [by left|].
    right. exists c, post'. split; [done|].
    rewrite <-url_char_accepted. by rewrite Hc.
Qed.

End Extraction.

(** C3. For every text, the list that [extract_urls_from_text] returns has
    no duplicates, and each of its elements begins with [http://] or
    [https://]; for the empty text the list is empty. *)
Theorem extract_urls_nodup_scheme :
  ∀ text : str,
    NoDup (Summarizer.extract_urls_from_text text) ∧
    (∀ u, u ∈ Summarizer.extract_urls_from_text text →
          py "http://" `prefix_of` u ∨ py "https://" `prefix_of` u) ∧
    Summarizer.extract_urls_from_text [] = [].
Proof.
  intros text. split_and!.
  - apply list_of_set_NoDup.
  - intros u (pre & scheme & body & post & _ & -> & [-> | ->] & _)%extract_urls_maximal.
    + left. by exists body.
    + right. by exists body.
  - unfold Summarizer.extract_urls_from_text.
    change (Re.findall Summarizer.url_pattern []) with (@nil str).
    unfold list_of_set. by rewrite list_to_set_nil, elements_empty.
Qed.

Lemma extract_urls_nodup_scheme_witness :
  py "http://" `prefix_of` py "http://a.b/c" ∨ py "https://" `prefix_of` py "http://a.b/c".
Proof.
  apply (proj1 (proj2 (extract_urls_nodup_scheme (py "go to http://a.b/c now")))).
  apply list_of_set_elem. vm_compute. apply list_elem_of_here.
Defined.

(** C4, as the code has it.  Every extracted URL is a scheme, [http://] or
    [https://], followed by a non-empty run of accepted characters: the
    exclamation mark, every character from the dollar sign to the
    underscore in code-point order, and the lower-case letters (so the
    upper-case letters, the digits, the slash, colon, question mark, equals
    sign, apostrophe, backslash and a lone percent sign are all accepted).
    The run is maximal: the text ends after it or goes on with a character
    that is not accepted.  Both classes extract alike. *)
Theorem extract_urls_accepted_run :
  (∀ text u : str,
     u ∈ Summarizer.extract_urls_from_text text ∨
     u ∈ Extractor.extract_urls_from_text text →
     maximal_url_match text u) ∧
  accepted (ch "'") ∧ accepted (ch "\") ∧ accepted (ch "/") ∧ accepted (ch "%") ∧
  ¬ accepted (ch " ") ∧ ¬ accepted 34 ∧ ¬ accepted (ch "#").
Proof.
  split.
  - intros text u [H|H]; by apply extract_urls_maximal.
  - unfold accepted. vm_compute. split_and!; try (intros [?|[[? ?]|[? ?]]]; done).
    all: right; left; done.
Qed.

Lemma extract_urls_accepted_run_witness :
  maximal_url_match (py "see http://a/b\c now") (py "http://a/b\c").
Proof.
  apply (proj1 extract_urls_accepted_run). left.
  apply list_of_set_elem. vm_compute. apply list_elem_of_here.
Defined.

(** C4 as stated fails: a slash and a backslash, which are not in the set
    that the specification lists, are part of the extracted URL. *)
Lemma extract_urls_spec_set_counterexample :
  Summarizer.extract_urls_from_text (py "http://a/b") = [py "http://a/b"] ∧
  spec_url_text (py "a/b") = false ∧
  Summarizer.extract_urls_from_text (py "http://a\b") = [py "http://a\b"] ∧
  spec_url_text (py "a\b") = false.
Proof. by vm_compute. Qed.

Lemma findall_visit_text :
  Re.findall Summarizer.url_pattern visit_text =
  [py "https://example.com/page?a=1"; py "http://x.io."].
Proof. by vm_compute. Qed.

(** C5, as the code has it.  For the text
    [Visit https://example.com/page?a=1 now and http://x.io.] the extracted
    URLs are exactly [https://example.com/page?a=1] and [http://x.io.]: the
    full stop that ends the sentence is an accepted character and belongs
    to the second URL. *)
Theorem extract_urls_visit_text :
  ∀ u : str,
    u ∈ Summarizer.extract_urls_from_text visit_text ↔
    u = py "https://example.com/page?a=1" ∨ u = py "http://x.io.".
Proof.
  intros u. unfold Summarizer.extract_urls_from_text.
  rewrite list_of_set_elem, findall_visit_text.
  rewrite !elem_of_cons, elem_of_nil. tauto.
Qed.

Lemma extract_urls_visit_text_witness :
  py "http://x.io." ∈ Summarizer.extract_urls_from_text visit_text.
Proof. apply (extract_urls_visit_text (py "http://x.io.")). right. reflexivity. Defined.

(** C5 as stated fails: the URL without the full stop is not extracted,
    so the result is not the set that the specification gives. *)
Lemma extract_urls_visit_text_counterexample :
  ¬ (∀ u : str,
       u ∈ Summarizer.extract_urls_from_text visit_text ↔
       u ∈ [py "https://example.com/page?a=1"; py "http://x.io"]).
Proof.
  intros H. specialize (H (py "http://x.io")) as [_ H].
  unfold Summarizer.extract_urls_from_text in H.
  rewrite list_of_set_elem, findall_visit_text in H.
  assert (py "http://x.io" ∈ [py "https://example.com/page?a=1"; py "http://x.io"])
    as Hin by (apply list_elem_of_further, list_elem_of_here).
  apply H in Hin. rewrite !elem_of_cons, elem_of_nil in Hin.
  by destruct Hin as [Hin|[Hin|[]]].
Qed.

(** C10. The two classes implement the same text pipeline: URL extraction
    returns equal lists, and content cleaning, over the same library
    functions, returns equal results. *)
Theorem variants_agree :
  (∀ text : str,
     Summarizer.extract_urls_from_text text = Extractor.extract_urls_from_text text) ∧
  (∀ (urlsafe_b64decode : str → result bytes) (decode_utf8 : bytes → result str)
     (soup_get_text : str → result str) (content : str),
     Summarizer.clean_email_content urlsafe_b64decode decode_utf8 soup_get_text content =
     Extractor.clean_email_content urlsafe_b64decode decode_utf8 soup_get_text content).
Proof. split; reflexivity. Qed.

(** C2, as the code has it.  For the empty sequence both [create_digest]
    functions return the empty dictionary: nothing is raised, and the
    result has no entry at all, under [total_emails] or any other key. *)
Theorem create_digest_empty :
  Summarizer.create_digest [] = ∅ ∧
  (∀ urlparse_netloc, Extractor.create_digest urlparse_netloc [] = ∅) ∧
  (∀ key : string, Summarizer.create_digest [] !! key = None) ∧
  (∀ urlparse_netloc (key : string),
     Extractor.create_digest urlparse_netloc [] !! key = None).
Proof. split_and!; done. Qed.

(** C2 as stated fails: the digest of the empty sequence has no
    [total_emails] entry, hence none that is zero, and no empty
    collections either. *)
Lemma create_digest_empty_counterexample :
  ¬ (Summarizer.create_digest [] !! "total_emails"%string = Some (VInt 0) ∧
     Summarizer.create_digest [] !! "unique_urls"%string = Some (VStrs []) ∧
     Summarizer.create_digest [] !! "sentiment_distribution"%string = Some (VDict []) ∧
     Summarizer.create_digest [] !! "action_items"%string = Some (VStrs []) ∧
     Summarizer.create_digest [] !! "top_senders"%string = Some (VPairs [])).
Proof. by intros [H _]. Qed.

Section DigestLookups.

Lemma summarizer_digest_total (emails : list Summarizer.email) :
  emails ≠ [] →
  Summarizer.create_digest emails !! "total_emails"%string = Some (VInt (length emails)).
Proof.
  intros H. unfold Summarizer.create_digest. rewrite bool_decide_false by done.
  by simplify_map_eq.
Qed.

Lemma summarizer_digest_unique_urls (emails : list Summarizer.email) :
  emails ≠ [] →
  Summarizer.create_digest emails !! "unique_urls"%string =
  Some (VStrs (list_of_set (concat (map Summarizer.urls emails)))).
Proof.
  intros H. unfold Summarizer.create_digest. rewrite bool_decide_false by done.
  cbv zeta. rewrite foldl_extend. by simplify_map_eq.
Qed.

Lemma summarizer_digest_top_senders (emails : list Summarizer.email) :
  emails ≠ [] →
  Summarizer.create_digest emails !! "top_senders"%string =
  Some (VPairs (take 5 (sorted_by_count_desc
                          (count_into [] (map Summarizer.sender emails))))).
Proof.
  intros H. unfold Summarizer.create_digest. rewrite bool_decide_false by done.
  by simplify_map_eq.
Qed.

Context (urlparse_netloc : str → result str).

Lemma extractor_digest_total (emails : list Extractor.email) :
  emails ≠ [] →
  Extractor.create_digest urlparse_netloc emails !! "total_emails"%string =
  Some (VInt (length emails)).
Proof.
  intros H. unfold Extractor.create_digest. rewrite bool_decide_false by done.
  by simplify_map_eq.
Qed.

Lemma extractor_digest_unique_urls (emails : list Extractor.email) :
  emails ≠ [] →
  Extractor.create_digest urlparse_netloc emails !! "unique_urls"%string =
  Some (VStrs (list_of_set (concat (map Extractor.urls emails)))).
Proof.
  intros H. unfold Extractor.create_digest. rewrite bool_decide_false by done.
  cbv zeta. rewrite foldl_extend. by simplify_map_eq.
Qed.

Lemma extractor_digest_top_senders (emails : list Extractor.email) :
  emails ≠ [] →
  Extractor.create_digest urlparse_netloc emails !! "top_senders"%string =
  Some (VPairs (take 5 (sorted_by_count_desc
                          (count_into [] (map Extractor.sender emails))))).
Proof.
  intros H. unfold Extractor.create_digest. rewrite bool_decide_false by done.
  by simplify_map_eq.
Qed.

Lemma extractor_digest_url_domains (emails : list Extractor.email) :
  emails ≠ [] →
  Extractor.create_digest urlparse_netloc emails !! "url_domains"%string =
  Some (VPairs (take 10 (sorted_by_count_desc
     (Extractor.count_domains urlparse_netloc (concat (map Extractor.urls emails)))))).
Proof.
  intros H. unfold Extractor.create_digest. rewrite bool_decide_false by done.
  cbv zeta. rewrite foldl_extend. by simplify_map_eq.
Qed.

End DigestLookups.

(** C1. For a non-empty sequence of records, the digest of either class
    has [total_emails] equal to the number of records, and [unique_urls]
    is a duplicate-free list whose set of elements is the union of the
    records' [urls]; its length is at most the sum of the lengths of the
    records' [urls] lists. *)
Theorem create_digest_total_and_unique_urls :
  (∀ emails : list Summarizer.email, emails ≠ [] →
     Summarizer.create_digest emails !! "total_emails"%string
       = Some (VInt (length emails)) ∧
     ∃ us, Summarizer.create_digest emails !! "unique_urls"%string = Some (VStrs us) ∧
           unique_urls_of (map Summarizer.urls emails) us) ∧
  (∀ urlparse_netloc (emails : list Extractor.email), emails ≠ [] →
     Extractor.create_digest urlparse_netloc emails !! "total_emails"%string
       = Some (VInt (length emails)) ∧
     ∃ us, Extractor.create_digest urlparse_netloc emails !! "unique_urls"%string
             = Some (VStrs us) ∧
           unique_urls_of (map Extractor.urls emails) us).
Proof.
  split.
  - intros emails H. split; [by apply summarizer_digest_total|].
    eexists. split; [by apply summarizer_digest_unique_urls|].
    apply unique_urls_of_list_of_set.
  - intros netloc emails H. split; [by apply extractor_digest_total|].
    eexists. split; [by apply extractor_digest_unique_urls|].
    apply unique_urls_of_list_of_set.
Qed.

Lemma create_digest_total_and_unique_urls_witness :
  Summarizer.create_digest
    [summarizer_email (py "A") [py "http://a.com/x"; py "http://b.org"];
     summarizer_email (py "B") [py "http://a.com/x"]] !! "total_emails"%string
  = Some (VInt 2) ∧
  Extractor.create_digest Urllib.netloc
    [extractor_email (py "A") [py "http://a.com/x"]] !! "total_emails"%string
  = Some (VInt 1).
Proof.
  split.
  - apply (proj1 create_digest_total_and_unique_urls
             [summarizer_email (py "A") [py "http://a.com/x"; py "http://b.org"];
              summarizer_email (py "B") [py "http://a.com/x"]]).
    discriminate.
  - apply (proj2 create_digest_total_and_unique_urls Urllib.netloc
             [extractor_email (py "A") [py "http://a.com/x"]]).
    discriminate.
Defined.

Section TopSenders.

Lemma count_domains_parsed (urlparse_netloc : str → result str) (all_urls : list str) :
  Extractor.count_domains urlparse_netloc all_urls =
  count_into [] (parsed_domains urlparse_netloc all_urls).
Proof.
  unfold Extractor.count_domains, count_into, parsed_domains.
  generalize (@nil (str * nat)).
  induction all_urls as [|url urls IH]; intros d; simpl; [done|].
  rewrite IH. by destruct (urlparse_netloc url).
Qed.

Lemma top_three (A B C : str) :
  A ≠ B → A ≠ C → B ≠ C →
  take 5 (sorted_by_count_desc (count_into [] [A; B; A; C; B; A])) =
  [(A, 3%nat); (B, 2%nat); (C, 1%nat)].
Proof.
  intros HAB HAC HBC. unfold count_into. simpl.
  repeat (case_bool_decide; simplify_eq/=; try done).
Qed.

End TopSenders.

(** C8. For a non-empty sequence of records, [top_senders] in the digest
    of either class is the ranking of the records' sender strings, cut
    after five entries: one pair per distinct sender with the number of its
    records, in descending order of that number, senders with the same
    number in order of first appearance.  Senders A, B, A, C, B, A give
    (A,3), (B,2), (C,1). *)
Theorem top_senders_ranking :
  (∀ emails : list Summarizer.email, emails ≠ [] →
     ∃ l, ranking (map Summarizer.sender emails) l ∧
          Summarizer.create_digest emails !! "top_senders"%string
            = Some (VPairs (take 5 l))) ∧
  (∀ urlparse_netloc (emails : list Extractor.email), emails ≠ [] →
     ∃ l, ranking (map Extractor.sender emails) l ∧
          Extractor.create_digest urlparse_netloc emails !! "top_senders"%string
            = Some (VPairs (take 5 l))) ∧
  (∀ (emails : list Summarizer.email) (A B C : str),
     A ≠ B → A ≠ C → B ≠ C →
     map Summarizer.sender emails = [A; B; A; C; B; A] →
     Summarizer.create_digest emails !! "top_senders"%string
       = Some (VPairs [(A, 3%nat); (B, 2%nat); (C, 1%nat)])) ∧
  (∀ urlparse_netloc (emails : list Extractor.email) (A B C : str),
     A ≠ B → A ≠ C → B ≠ C →
     map Extractor.sender emails = [A; B; A; C; B; A] →
     Extractor.create_digest urlparse_netloc emails !! "top_senders"%string
       = Some (VPairs [(A, 3%nat); (B, 2%nat); (C, 1%nat)])).
Proof.
  split_and!.
  - intros emails H. eexists. split; [apply ranking_sorted_counts|].
    by apply summarizer_digest_top_senders.
  - intros netloc emails H. eexists. split; [apply ranking_sorted_counts|].
    by apply extractor_digest_top_senders.
  - intros emails A B C HAB HAC HBC Hs.
    rewrite summarizer_digest_top_senders by (by intros ->).
    by rewrite Hs, top_three.
  - intros netloc emails A B C HAB HAC HBC Hs.
    rewrite extractor_digest_top_senders by (by intros ->).
    by rewrite Hs, top_three.
Qed.

Lemma top_senders_ranking_witness :
  Summarizer.create_digest
    (map (λ s, summarizer_email s [])
         [py "A"; py "B"; py "A"; py "C"; py "B"; py "A"]) !! "top_senders"%string
  = Some (VPairs [(py "A", 3%nat); (py "B", 2%nat); (py "C", 1%nat)]) ∧
  Extractor.create_digest Urllib.netloc
    (map (λ s, extractor_email s [])
         [py "A"; py "B"; py "A"; py "C"; py "B"; py "A"]) !! "top_senders"%string
  = Some (VPairs [(py "A", 3%nat); (py "B", 2%nat); (py "C", 1%nat)]).
Proof.
  split.
  - apply (proj1 (proj2 (proj2 top_senders_ranking))
             (map (λ s, summarizer_email s [])
                  [py "A"; py "B"; py "A"; py "C"; py "B"; py "A"])
             (py "A") (py "B") (py "C")); [discriminate..|reflexivity].
  - apply (proj2 (proj2 (proj2 top_senders_ranking)) Urllib.netloc
             (map (λ s, extractor_email s [])
                  [py "A"; py "B"; py "A"; py "C"; py "B"; py "A"])
             (py "A") (py "B") (py "C")); [discriminate..|reflexivity].
Defined.

(** What the domain loop of the extractor's [create_digest] computes, for
    a non-empty sequence of records: the ranking, cut after ten entries, of
    the network locations of [all_urls], the concatenation of the records'
    [urls] lists; a URL counts once for every record that lists it, and a
    URL that [urlparse] rejects does not count. *)
Lemma url_domains_ranking :
  ∀ (urlparse_netloc : str → result str) (emails : list Extractor.email),
    emails ≠ [] →
    ∃ l, ranking (parsed_domains urlparse_netloc (concat (map Extractor.urls emails))) l ∧
         Extractor.create_digest urlparse_netloc emails !! "url_domains"%string
           = Some (VPairs (take 10 l)).
Proof.
  intros netloc emails H. eexists. split; [apply ranking_sorted_counts|].
  rewrite extractor_digest_url_domains by done. by rewrite count_domains_parsed.
Qed.

(** C9.  The extractor's [url_domains] is not computed over the set of
    unique URLs.  Two records that list the same URL give a digest with one
    unique URL, yet the network location of that URL is counted twice: the
    loop runs over [all_urls].  The URL analysis of the other class, the
    same loop over [unique_urls], counts it once. *)
Theorem url_domains_counts_repeated_url :
  Extractor.create_digest Urllib.netloc
    [extractor_email (py "A") [py "http://a.com/x"];
     extractor_email (py "B") [py "http://a.com/x"]] !! "unique_urls"%string
  = Some (VStrs [py "http://a.com/x"]) ∧
  Extractor.create_digest Urllib.netloc
    [extractor_email (py "A") [py "http://a.com/x"];
     extractor_email (py "B") [py "http://a.com/x"]] !! "url_domains"%string
  = Some (VPairs [(py "a.com", 2%nat)]) ∧
  Summarizer.url_analysis Urllib.netloc [py "http://a.com/x"] = [(py "a.com", 1%nat)].
Proof. by vm_compute. Qed.

Section BodySelection.
Import Gmail.

Lemma scan_parts_policy (ps : list part) (body : str) :
  Summarizer.scan_parts ps body =
  match first_plain ps with
  | Some p => data_or_empty (part_data p)
  | None =>
      match last_html ps with
      | Some p => data_or_empty (part_data p)
      | None => body
      end
  end.
Proof.
  unfold first_plain, last_html. revert body.
  induction ps as [|p ps IH]; intros body; simpl; [done|].
  case_bool_decide as Hplain.
  - by rewrite filter_cons_True.
  - rewrite (filter_cons_False _ p ps Hplain). case_bool_decide as Hhtml.
    + rewrite IH, (filter_cons_True _ p ps Hhtml).
      destruct (head _); [done|].
      destruct (filter _ ps) as [|q qs] eqn:E; [done|].
      rewrite (last_cons p (q :: qs)). by destruct (last (q :: qs)).
    + by rewrite IH, (filter_cons_False _ p ps Hhtml).
Qed.

End BodySelection.

(** C7. The body that [get_email_content] selects for cleaning: when the
    message has parts, the payload of the first part of type [text/plain];
    when there is none, the payload of the last part of type [text/html]
    in scan order; when the message has no parts, the payload of its own
    body.  Both classes select alike. *)
Theorem select_body_policy :
  ∀ message : Gmail.payload,
    (∀ ps p, Gmail.parts message = Some ps → first_plain ps = Some p →
       Summarizer.select_body message = Gmail.data_or_empty (Gmail.part_data p)) ∧
    (∀ ps p, Gmail.parts message = Some ps → first_plain ps = None →
       last_html ps = Some p →
       Summarizer.select_body message = Gmail.data_or_empty (Gmail.part_data p)) ∧
    (Gmail.parts message = None →
       Summarizer.select_body message = Gmail.data_or_empty (Gmail.body_data message)) ∧
    Summarizer.select_body message = policy_body message ∧
    Extractor.select_body message = Summarizer.select_body message.
Proof.
  intros message. unfold Summarizer.select_body, policy_body. split_and!.
  - intros ps p -> Hp. by rewrite scan_parts_policy, Hp.
  - intros ps p -> Hnone Hp. by rewrite scan_parts_policy, Hnone, Hp.
  - by intros ->.
  - destruct (Gmail.parts message) as [ps|]; [|done]. apply scan_parts_policy.
  - reflexivity.
Qed.

Lemma select_body_policy_witness :
  Summarizer.select_body three_parts = py "P1" ∧
  Summarizer.select_body two_html_parts = py "H2" ∧
  Summarizer.select_body unparted = py "B".
Proof.
  split_and!.
  - apply (proj1 (select_body_policy three_parts) _
             {| Gmail.mimeType := py "text/plain"; Gmail.part_data := Some (py "P1") |}
             eq_refl).
    reflexivity.
  - apply (proj1 (proj2 (select_body_policy two_html_parts)) _
             {| Gmail.mimeType := py "text/html"; Gmail.part_data := Some (py "H2") |}
             eq_refl); reflexivity.
  - apply (proj1 (proj2 (proj2 (select_body_policy unparted)))). reflexivity.
Defined.

Section Cleaning.

Context (urlsafe_b64decode : str → result bytes).
Context (decode_utf8 : bytes → result str).
Context (soup_get_text : str → result str).

Lemma clean_email_content_unfold (content : str) :
  content ≠ [] →
  Summarizer.clean_email_content urlsafe_b64decode decode_utf8 soup_get_text content =
  (text ← soup_get_text
            (try_except (b ← urlsafe_b64decode content; decode_utf8 b) content);
   Ret (collapse_whitespace text)).
Proof. intros H. unfold Summarizer.clean_email_content. by destruct content. Qed.

End Cleaning.

(** C6, as the code has it.  [clean_email_content] over any base64
    decoder, UTF-8 decoder and HTML parser: the empty content gives the
    empty string; an exception of the decoding step never leaves the
    function, the content is then parsed as it stands; the function raises
    exactly when the parser raises on the text it is given, and then the
    parser's exception; whenever the parser returns, the function returns,
    and whatever it returns is one line without double spaces and without
    whitespace at either end (the parsed text [Hello  World] comes out as
    [Hello World]).  With [base64.urlsafe_b64decode] itself, the payload
    [%%%not-base64%%%] fails to decode and is cleaned as literal text.
    Both classes clean alike. *)
Theorem clean_email_content_parser_errors_only :
  ∀ (urlsafe_b64decode : str → result bytes) (decode_utf8 : bytes → result str)
    (soup_get_text : str → result str),
    Summarizer.clean_email_content urlsafe_b64decode decode_utf8 soup_get_text []
      = Ret [] ∧
    (∀ content e, content ≠ [] →
       Summarizer.clean_email_content urlsafe_b64decode decode_utf8 soup_get_text content
         = Raise e ↔
       soup_get_text (try_except (b ← urlsafe_b64decode content; decode_utf8 b) content)
         = Raise e) ∧
    (∀ content,
       returns (soup_get_text
                  (try_except (b ← urlsafe_b64decode content; decode_utf8 b) content)) →
       ∃ out,
         Summarizer.clean_email_content urlsafe_b64decode decode_utf8 soup_get_text content
           = Ret out ∧ whitespace_normalized out) ∧
    (∀ content out,
       Summarizer.clean_email_content urlsafe_b64decode decode_utf8 soup_get_text content
         = Ret out →
       whitespace_normalized out) ∧
    (∀ content e, content ≠ [] →
       (b ← urlsafe_b64decode content; decode_utf8 b) = Raise e →
       Summarizer.clean_email_content urlsafe_b64decode decode_utf8 soup_get_text content
         = (text ← soup_get_text content; Ret (collapse_whitespace text))) ∧
    (∀ content, content ≠ [] →
       soup_get_text (try_except (b ← urlsafe_b64decode content; decode_utf8 b) content)
         = Ret (py "Hello  World") →
       Summarizer.clean_email_content urlsafe_b64decode decode_utf8 soup_get_text content
         = Ret (py "Hello World")) ∧
    Base64.urlsafe_b64decode (py "%%%not-base64%%%") = Raise BinasciiError ∧
    Summarizer.clean_email_content Base64.urlsafe_b64decode decode_utf8 soup_get_text
      (py "%%%not-base64%%%")
      = (text ← soup_get_text (py "%%%not-base64%%%"); Ret (collapse_whitespace text)) ∧
    (∀ content,
       Extractor.clean_email_content urlsafe_b64decode decode_utf8 soup_get_text content
       = Summarizer.clean_email_content urlsafe_b64decode decode_utf8 soup_get_text content).
Proof.
  intros b64 utf8 soup.
  assert (whitespace_normalized []) as Hnil.
  { split_and!; [constructor| |by split]. intros pre post H. by destruct pre. }
  assert (∀ content out,
            Summarizer.clean_email_content b64 utf8 soup content = Ret out →
            whitespace_normalized out) as Hnorm.
  { intros content out. destruct (decide (content = [])) as [->|Hne].
    - by intros [= <-].
    - rewrite clean_email_content_unfold by done.
      destruct (soup _) as [text|e]; [|done]. intros [= <-].
      apply collapse_whitespace_normalized. }
  split_and!.
  - done.
  - intros content e Hne. rewrite clean_email_content_unfold by done.
    destruct (soup _) as [text|e']; simpl; split; intros H; by inversion H.
  - intros content [text Ht]. destruct (decide (content = [])) as [->|Hne].
    + by exists [].
    + exists (collapse_whitespace text). split.
      * rewrite clean_email_content_unfold by done. by rewrite Ht.
      * apply collapse_whitespace_normalized.
  - exact Hnorm.
  - intros content e Hne Hdec. rewrite clean_email_content_unfold by done.
    by rewrite Hdec.
  - intros content Hne Ht. rewrite clean_email_content_unfold by done.
    by rewrite Ht.
  - by vm_compute.
  - rewrite clean_email_content_unfold by done.
    assert (Base64.urlsafe_b64decode (py "%%%not-base64%%%") = Raise BinasciiError)
      as -> by (by vm_compute).
    done.
  - reflexivity.
Qed.

Lemma clean_email_content_parser_errors_only_witness :
  ∃ out,
    Summarizer.clean_email_content Base64.urlsafe_b64decode decode_ascii
      text_without_markup (py "%%%not-base64%%%") = Ret out ∧
    whitespace_normalized out.
Proof.
  apply (proj1 (proj2 (proj2
           (clean_email_content_parser_errors_only Base64.urlsafe_b64decode
              decode_ascii text_without_markup)))).
  eexists. reflexivity.
Defined.

(** C6 as stated fails: the content [<![abc[x]]>] does not decode and is
    parsed as it stands; the parser rejects the marked section, nothing
    around the parser catches the exception, and it leaves
    [clean_email_content] in both classes. *)
Lemma clean_email_content_raises_counterexample :
  Summarizer.clean_email_content Base64.urlsafe_b64decode decode_ascii
    text_or_rejected (py "<![abc[x]]>") = Raise ParserError ∧
  Extractor.clean_email_content Base64.urlsafe_b64decode decode_ascii
    text_or_rejected (py "<![abc[x]]>") = Raise ParserError ∧
  ¬ (∀ content,
       returns (Summarizer.clean_email_content Base64.urlsafe_b64decode decode_ascii
                  text_or_rejected content)).
Proof.
  split_and!; [by vm_compute..|].
  intros H. destruct (H (py "<![abc[x]]>")) as [out Hout]. by vm_compute in Hout.
Qed.

(** * Further properties of the code *)

(** ** URL extraction *)

Section ExtractionMore.
Import Re.

Lemma accepted_url_char (c : char) : accepted c → url_char c = true.
Proof. apply url_char_accepted. Qed.

Lemma list_of_set_singleton (u : str) : list_of_set [u] = [u].
Proof.
  unfold list_of_set. rewrite list_to_set_cons, list_to_set_nil, union_empty_r_L.
  apply elements_singleton.
Qed.

Lemma list_of_set_nil_iff (xs : list str) : list_of_set xs = [] ↔ xs = [].
Proof.
  split.
  - intros H. destruct xs as [|x xs]; [done|].
    assert (x ∈ list_of_set (x :: xs)) as Hx
      by (apply list_of_set_elem, list_elem_of_here).
    rewrite H in Hx. by apply elem_of_nil in Hx.
  - intros ->. unfold list_of_set. by rewrite list_to_set_nil, elements_empty.
Qed.

(** A scheme followed by accepted characters only is matched whole. *)
Lemma findall_whole (scheme body : str) :
  scheme = py "http://" ∨ scheme = py "https://" →
  body ≠ [] → Forall accepted body →
  findall Summarizer.url_pattern (scheme ++ body) = [scheme ++ body].
Proof.
  intros Hscheme Hne Hbody.
  assert (exec Summarizer.url_pattern (scheme ++ body) Some = Some []) as Hexec.
  { apply exec_url_pattern. exists scheme, body. rewrite app_nil_r.
    split_and!; [done|done|done| |by left].
    eapply Forall_impl; [exact Hbody|]. apply accepted_url_char. }
  unfold findall. cbn [findall_from]. unfold match_at. rewrite Hexec.
  cbn [length]. rewrite Nat.sub_0_r, firstn_all.
  destruct (scheme ++ body) as [|c s] eqn:E.
  { by destruct Hscheme as [-> | ->]. }
  reflexivity.
Qed.

(** Where [findall] reports nothing, the pattern matches at no position. *)
Lemma findall_from_nil (r : regex) (fuel : nat) (s : str) :
  (length s < fuel)%nat → findall_from r fuel s = [] →
  ∀ pre t, s = pre ++ t → exec r t Some = None.
Proof.
  revert s. induction fuel as [|fuel IH]; intros s Hlen; [lia|]. simpl.
  unfold match_at. destruct (exec r s Some) as [rest|] eqn:E.
  { by destruct (take _ s). }
  intros Hnil pre t ->. destruct pre as [|c pre]; [done|].
  simpl in *. eapply IH; [|exact Hnil|done]. lia.
Qed.

End ExtractionMore.

(** X1. An extracted URL is stable under extraction: extracting from the
    URL itself returns exactly that URL. *)
Theorem extract_urls_fixed_point :
  ∀ text u : str,
    u ∈ Summarizer.extract_urls_from_text text →
    Summarizer.extract_urls_from_text u = [u] ∧
    Extractor.extract_urls_from_text u = [u].
Proof.
  intros text u (pre & scheme & body & post & _ & -> & Hs & Hne & Hbody & _)
    %extract_urls_maximal.
  assert (Summarizer.extract_urls_from_text (scheme ++ body) = [scheme ++ body]) as H.
  { unfold Summarizer.extract_urls_from_text.
    rewrite findall_whole by done. apply list_of_set_singleton. }
  split; exact H.
Qed.

Lemma extract_urls_fixed_point_witness :
  Summarizer.extract_urls_from_text (py "http://x.io.") = [py "http://x.io."] ∧
  Extractor.extract_urls_from_text (py "http://x.io.") = [py "http://x.io."].
Proof.
  apply (extract_urls_fixed_point visit_text (py "http://x.io.")).
  apply list_of_set_elem. vm_compute.
  apply list_elem_of_further, list_elem_of_here.
Defined.

(** X2. Extraction finds something exactly when the text holds [http://]
    or [https://] directly followed by an accepted character. *)
Theorem extract_urls_nonempty_iff :
  ∀ text : str,
    Summarizer.extract_urls_from_text text ≠ [] ↔
    ∃ pre scheme c post,
      text = pre ++ scheme ++ c :: post ∧
      (scheme = py "http://" ∨ scheme = py "https://") ∧ accepted c.
Proof.
  intros text. split.
  - intros Hne. destruct (Summarizer.extract_urls_from_text text) as [|u us] eqn:E;
      [done|].
    assert (u ∈ Summarizer.extract_urls_from_text text) as Hu
      by (rewrite E; apply list_elem_of_here).
    apply extract_urls_maximal in Hu
      as (pre & scheme & body & post & -> & -> & Hs & Hb & Hbody & _).
    destruct body as [|c body]; [done|]. apply Forall_cons in Hbody as [Hc _].
    exists pre, scheme, c, (body ++ post). split; [|done].
    by rewrite <-!app_assoc.
  - intros (pre & scheme & c & post & -> & Hs & Hc) Hnil.
    unfold Summarizer.extract_urls_from_text in Hnil.
    rewrite list_of_set_nil_iff in Hnil.
    pose proof (findall_from_nil Summarizer.url_pattern _ _ (Nat.lt_succ_diag_r _) Hnil
                  pre (scheme ++ c :: post) eq_refl) as Hnone.
    destruct (skip_url_chars_split post) as (run & Hpost & Hrun).
    assert (Re.exec Summarizer.url_pattern (scheme ++ c :: post) Some
            = Some (skip_url_chars post)) as Hsome; [|congruence].
    apply exec_url_pattern. exists scheme, (c :: run). split_and!.
    + simpl. by rewrite <-Hpost.
    + done.
    + done.
    + constructor; [by apply accepted_url_char|done].
    + apply skip_url_chars_stops.
Qed.

Lemma extract_urls_nonempty_iff_witness :
  Summarizer.extract_urls_from_text (py "go http://a now") ≠ [].
Proof.
  apply (proj2 (extract_urls_nonempty_iff (py "go http://a now"))).
  exists (py "go "), (py "http://"), (ch "a"), (py " now").
  split; [reflexivity|]. split; [left; reflexivity|].
  right. right. vm_compute. split; discriminate.
Defined.

(** ** Cleaning: what happens to the characters *)

Section VisibleFacts.

Lemma visible_app (a b : str) : visible (a ++ b) = visible a ++ visible b.
Proof. apply filter_app. Qed.

Lemma visible_space (c : char) (s : str) :
  isspace c = true → visible (c :: s) = visible s.
Proof. intros H. unfold visible. rewrite filter_cons_False; [done|]. by rewrite H. Qed.

Lemma visible_other (c : char) (s : str) :
  isspace c = false → visible (c :: s) = c :: visible s.
Proof. intros H. unfold visible. by rewrite filter_cons_True. Qed.

Lemma linebreak_isspace (c : char) : is_linebreak c = true → isspace c = true.
Proof.
  unfold is_linebreak, isspace.
  rewrite !orb_true_iff, !andb_true_iff, !N.leb_le, !N.eqb_eq. lia.
Qed.

Lemma visible_lstrip (s : str) : visible (lstrip s) = visible s.
Proof.
  induction s as [|c s IH]; simpl; [done|].
  destruct (isspace c) eqn:E; [|done]. by rewrite visible_space.
Qed.

Lemma visible_strip (s : str) : visible (strip s) = visible s.
Proof.
  unfold strip, rstrip, visible.
  rewrite filter_reverse. fold (visible (lstrip (reverse (lstrip s)))).
  rewrite visible_lstrip. unfold visible. rewrite filter_reverse, reverse_involutive.
  apply visible_lstrip.
Qed.

Lemma visible_concat_map (f : str → str) (l : list str) :
  (∀ s, visible (f s) = visible s) →
  visible (concat (map f l)) = visible (concat l).
Proof.
  intros Hf. induction l as [|s l IH]; simpl; [done|].
  by rewrite !visible_app, Hf, IH.
Qed.

Lemma visible_splitlines_go (cur : str) (after_cr : bool) (s : str) :
  visible (concat (splitlines_go cur after_cr s)) = visible (cur ++ s).
Proof.
  revert cur after_cr. induction s as [|c s IH]; intros cur after_cr; simpl.
  - destruct cur; simpl; by rewrite ?app_nil_r.
  - destruct (after_cr && (c =? 10)) eqn:E.
    + rewrite IH, !visible_app. f_equal.
      apply andb_true_iff in E as [_ ->%N.eqb_eq]. by rewrite visible_space.
    + destruct (is_linebreak c) eqn:El.
      * simpl. rewrite !visible_app, IH. simpl.
        by rewrite (visible_space c) by (by apply linebreak_isspace).
      * rewrite IH. by rewrite <-app_assoc.
Qed.

Lemma visible_split_2sp_go (n : nat) (cur s : str) :
  (length s ≤ n)%nat →
  visible (concat (split_2sp_go cur s)) = visible (cur ++ s).
Proof.
  revert cur s. induction n as [|n IH]; intros cur s Hn.
  - destruct s; simpl in *; [|lia]. by rewrite !app_nil_r.
  - destruct s as [|c1 [|c2 s2]].
    + simpl. by rewrite !app_nil_r.
    + simpl. by rewrite !app_nil_r.
    + rewrite split_2sp_go_cons2. simpl in Hn.
      destruct ((c1 =? 32) && (c2 =? 32)) eqn:E.
      * apply andb_true_iff in E as [->%N.eqb_eq ->%N.eqb_eq].
        simpl. rewrite !visible_app, IH by lia. simpl.
        by rewrite !(visible_space 32).
      * rewrite IH by (simpl; lia). by rewrite <-app_assoc.
Qed.

Lemma visible_split_2sp (s : str) : visible (concat (split_2sp s)) = visible s.
Proof. apply (visible_split_2sp_go (length s)). lia. Qed.

Lemma visible_concat_bind (f : str → list str) (l : list str) :
  (∀ s, visible (concat (f s)) = visible s) →
  visible (concat (concat (map f l))) = visible (concat l).
Proof.
  intros Hf. induction l as [|s l IH]; simpl; [done|].
  by rewrite concat_app, !visible_app, Hf, IH.
Qed.

Lemma concat_filter_nonempty (l : list str) :
  concat (filter (λ chunk, nonempty chunk = true) l) = concat l.
Proof.
  induction l as [|s l IH]; [done|].
  rewrite filter_cons. destruct s as [|c s]; simpl; [done|]. by rewrite IH.
Qed.

Lemma visible_join_sp (chunks : list str) :
  visible (join_sp chunks) = visible (concat chunks).
Proof.
  induction chunks as [|c rest IH]; [done|].
  destruct rest as [|c' rest]; [simpl; by rewrite app_nil_r|].
  rewrite join_sp_cons by done.
  change (concat (c :: c' :: rest)) with (c ++ concat (c' :: rest)).
  by rewrite !visible_app, visible_space, IH.
Qed.

(** The clean-up changes whitespace only. *)
Lemma visible_collapse_whitespace (text : str) :
  visible (collapse_whitespace text) = visible text.
Proof.
  unfold collapse_whitespace.
  rewrite visible_join_sp, concat_filter_nonempty.
  rewrite (visible_concat_map strip) by apply visible_strip.
  rewrite (visible_concat_bind split_2sp) by apply visible_split_2sp.
  rewrite (visible_concat_map strip) by apply visible_strip.
  apply (visible_splitlines_go [] false).
Qed.

Lemma trimmed_visible_nil (s : str) : trimmed s → visible s = [] → s = [].
Proof.
  intros [Hhead _] Hv. destruct s as [|c s]; [done|].
  rewrite visible_other in Hv by (by apply Hhead). done.
Qed.

End VisibleFacts.

Section NormalizedFacts.

Lemma no_double_space_adjacent (s : str) :
  no_double_space s → no_adjacent_spaces s.
Proof.
  induction s as [|c1 s IH]; [done|]. intros H.
  destruct s as [|c2 s]; [done|]. split.
  - intros [-> ->]. by apply (H [] s).
  - apply IH. intros pre post Heq. apply (H (c1 :: pre) post). simpl. by rewrite Heq.
Qed.

Lemma splitlines_go_one_line (cur : str) (after_cr : bool) (s : str) :
  single_line s →
  splitlines_go cur after_cr s = match cur ++ s with [] => [] | l => [l] end.
Proof.
  revert cur after_cr. induction s as [|c s IH]; intros cur after_cr Hs; simpl.
  - rewrite app_nil_r. by destruct cur.
  - apply Forall_cons in Hs as [Hc Hs].
    assert ((c =? 10) = false) as ->.
    { apply N.eqb_neq. intros ->. by vm_compute in Hc. }
    rewrite andb_false_r, Hc, IH by done. by rewrite <-app_assoc.
Qed.

Lemma lstrip_id (s : str) :
  (∀ c, head s = Some c → isspace c = false) → lstrip s = s.
Proof. destruct s as [|c s]; [done|]. intros H. simpl. by rewrite (H c). Qed.

Lemma strip_id (s : str) : trimmed s → strip s = s.
Proof.
  intros [Hhead Hlast]. unfold strip, rstrip.
  rewrite (lstrip_id s) by done.
  rewrite lstrip_id; [apply reverse_involutive|].
  intros c. rewrite head_reverse. apply Hlast.
Qed.

Lemma split_2sp_go_whole (n : nat) (cur s : str) :
  (length s ≤ n)%nat → no_adjacent_spaces s → split_2sp_go cur s = [cur ++ s].
Proof.
  revert cur s. induction n as [|n IH]; intros cur s Hn Hs.
  - destruct s; simpl in *; [|lia]. by rewrite app_nil_r.
  - destruct s as [|c1 [|c2 s2]].
    + simpl. by rewrite app_nil_r.
    + done.
    + rewrite split_2sp_go_cons2. simpl in Hn. destruct Hs as [Hne Hs].
      destruct (N.eqb_spec c1 32) as [->|]; destruct (N.eqb_spec c2 32) as [->|];
        cbn [andb]; [by destruct Hne|..];
        rewrite IH by (done || simpl; lia); by rewrite <-app_assoc.
Qed.

(** Text that is one trimmed line without double spaces stays as it is. *)
Lemma collapse_whitespace_fixed (text : str) :
  whitespace_normalized text → collapse_whitespace text = text.
Proof.
  intros (Hline & Hsp & Htrim). unfold collapse_whitespace, splitlines.
  rewrite splitlines_go_one_line by done.
  destruct text as [|c text]; [done|]. cbn [app map concat].
  rewrite (strip_id (c :: text)) by done. rewrite app_nil_r.
  unfold split_2sp.
  rewrite (split_2sp_go_whole (length (c :: text))) by
    (done || by apply no_double_space_adjacent).
  cbn [app map]. by rewrite (strip_id (c :: text)) by done.
Qed.

End NormalizedFacts.

Lemma clean_email_content_normalized
    (urlsafe_b64decode : str → result bytes) (decode_utf8 : bytes → result str)
    (soup_get_text : str → result str) (content out : str) :
  Summarizer.clean_email_content urlsafe_b64decode decode_utf8 soup_get_text content
    = Ret out →
  whitespace_normalized out.
Proof.
  destruct (decide (content = [])) as [->|Hne].
  - intros [= <-]. split_and!; [constructor| |by split].
    intros pre post H. by destruct pre.
  - rewrite clean_email_content_unfold by done.
    destruct (soup_get_text _) as [text|e]; [|done]. intros [= <-].
    apply collapse_whitespace_normalized.
Qed.

(** X3. Cleaning changes whitespace only: the characters of the returned
    string that are not whitespace are those of the text that the parser
    gave, in the same order; the result is empty exactly when that text
    holds nothing but whitespace. *)
Theorem clean_email_content_keeps_visible :
  ∀ (urlsafe_b64decode : str → result bytes) (decode_utf8 : bytes → result str)
    (soup_get_text : str → result str) (content out : str),
    content ≠ [] →
    Summarizer.clean_email_content urlsafe_b64decode decode_utf8 soup_get_text content
      = Ret out →
    ∃ text,
      soup_get_text
        (try_except (b ← urlsafe_b64decode content; decode_utf8 b) content) = Ret text ∧
      visible out = visible text ∧
      (out = [] ↔ Forall (λ c, isspace c = true) text).
Proof.
  intros b64 utf8 soup content out Hne. rewrite clean_email_content_unfold by done.
  destruct (soup _) as [text|e]; [|done]. intros [= <-].
  exists text. split; [done|]. split; [apply visible_collapse_whitespace|].
  split.
  - intros Hnil. pose proof (visible_collapse_whitespace text) as Hv.
    rewrite Hnil in Hv. apply Forall_forall. intros c Hc.
    destruct (isspace c) eqn:E; [done|].
    assert (c ∈ visible text) as Hin by (by apply list_elem_of_filter).
    rewrite <-Hv in Hin. by apply elem_of_nil in Hin.
  - intros Hall. apply trimmed_visible_nil.
    + apply collapse_whitespace_normalized.
    + rewrite visible_collapse_whitespace. unfold visible.
      induction Hall as [|c text Hc _ IH]; [done|].
      rewrite filter_cons_False; [done|]. by rewrite Hc.
Qed.

Lemma clean_email_content_keeps_visible_witness :
  ∃ text,
    text_without_markup
      (try_except (b ← Base64.urlsafe_b64decode (py " a   b "); decode_ascii b)
         (py " a   b ")) = Ret text ∧
    visible (py "a b") = visible text ∧
    (py "a b" = [] ↔ Forall (λ c, isspace c = true) text).
Proof.
  apply (clean_email_content_keeps_visible Base64.urlsafe_b64decode decode_ascii
           text_without_markup (py " a   b ") (py "a b")).
  - discriminate.
  - reflexivity.
Defined.

(** X4. Cleaning is stable on clean text: when the text that the parser
    gives is already one line without double spaces and without whitespace
    at either end, it is returned unchanged; so cleaning the result of a
    cleaning again returns the same string, whenever that string does not
    decode and has no markup for the parser to take away. *)
Theorem clean_email_content_stable :
  ∀ (urlsafe_b64decode : str → result bytes) (decode_utf8 : bytes → result str)
    (soup_get_text : str → result str),
    (∀ content text : str,
       content ≠ [] →
       soup_get_text
         (try_except (b ← urlsafe_b64decode content; decode_utf8 b) content) = Ret text →
       whitespace_normalized text →
       Summarizer.clean_email_content urlsafe_b64decode decode_utf8 soup_get_text content
         = Ret text) ∧
    (∀ content out : str,
       Summarizer.clean_email_content urlsafe_b64decode decode_utf8 soup_get_text content
         = Ret out →
       (∀ b, urlsafe_b64decode out = Ret b → ∃ e, decode_utf8 b = Raise e) →
       soup_get_text out = Ret out →
       Summarizer.clean_email_content urlsafe_b64decode decode_utf8 soup_get_text out
         = Ret out).
Proof.
  intros b64 utf8 soup.
  assert (∀ content text : str,
            content ≠ [] →
            soup (try_except (b ← b64 content; utf8 b) content) = Ret text →
            whitespace_normalized text →
            Summarizer.clean_email_content b64 utf8 soup content = Ret text) as Hfix.
  { intros content text Hne Hsoup Hnorm.
    rewrite clean_email_content_unfold, Hsoup by done. simpl.
    by rewrite collapse_whitespace_fixed. }
  split; [exact Hfix|].
  intros content out Hout Hdec Hsoup.
  destruct (decide (out = [])) as [->|Hne]; [done|].
  apply Hfix; [done| |].
  - destruct (b64 out) as [b|e] eqn:Eb; simpl; [|done].
    destruct (Hdec b eq_refl) as [e ->]. done.
  - by apply (clean_email_content_normalized b64 utf8 soup content).
Qed.

Lemma clean_email_content_stable_witness :
  Summarizer.clean_email_content Base64.urlsafe_b64decode decode_ascii
    text_without_markup (py "a b") = Ret (py "a b").
Proof.
  apply (proj2 (clean_email_content_stable Base64.urlsafe_b64decode decode_ascii
                  text_without_markup) (py " a   b ") (py "a b")).
  - reflexivity.
  - intros b H. vm_compute in H. discriminate H.
  - reflexivity.
Defined.

(** ** The digests: histograms, totals, keys *)

Section HistogramFacts.

Lemma dict_incr_sum (d : dict nat) (k : str) :
  sum_list (dict_set d k (dict_get d k 0 + 1)%nat).*2 = S (sum_list d.*2).
Proof.
  induction d as [|[k' v] d IH]; [done|].
  cbn [dict_get dict_set]. case_bool_decide.
  - rewrite !fmap_cons. cbn. lia.
  - rewrite !fmap_cons. cbn [sum_list_with]. rewrite IH. cbn. lia.
Qed.

Lemma count_into_sum (d : dict nat) (xs : list str) :
  sum_list (count_into d xs).*2 = (sum_list d.*2 + length xs)%nat.
Proof.
  revert d. induction xs as [|x xs IH]; intros d; simpl; [lia|].
  unfold count_into in *. simpl. rewrite IH, dict_incr_sum. lia.
Qed.

(** What a counting loop from the empty dictionary holds. *)
Lemma count_into_histogram (xs : list str) :
  (count_into [] xs).*1 = first_seen xs ∧
  (∀ k n, (k, n) ∈ count_into [] xs ↔ k ∈ xs ∧ n = count_of k xs) ∧
  sum_list (count_into [] xs).*2 = length xs.
Proof.
  split_and!.
  - by rewrite count_into_first_seen, keyed_fst.
  - intros k n. rewrite count_into_first_seen, list_elem_of_fmap.
    setoid_rewrite first_seen_elem. naive_solver.
  - by rewrite count_into_sum.
Qed.

Lemma count_of_pos (k : str) (xs : list str) : k ∈ xs → (0 < count_of k xs)%nat.
Proof.
  unfold count_of. induction xs as [|x xs IH]; [by intros ?%elem_of_nil|].
  rewrite elem_of_cons, filter_cons. intros [->|Hin].
  - rewrite decide_True by done. simpl. lia.
  - case_decide; simpl; [lia|]. by apply IH.
Qed.

Lemma sum_list_take (n : nat) (l : list nat) : (sum_list (take n l) ≤ sum_list l)%nat.
Proof.
  revert n. induction l as [|x l IH]; intros [|n]; simpl; try lia.
  specialize (IH n). lia.
Qed.

Lemma count_of_cons (k x : str) (xs : list str) :
  count_of k (x :: xs) = if decide (x = k) then S (count_of k xs) else count_of k xs.
Proof. unfold count_of. rewrite filter_cons. by case_decide. Qed.

Lemma parsed_domains_cons (urlparse_netloc : str → result str) (url : str)
    (urls : list str) :
  parsed_domains urlparse_netloc (url :: urls) =
  match urlparse_netloc url with
  | Ret d => d :: parsed_domains urlparse_netloc urls
  | Raise _ => parsed_domains urlparse_netloc urls
  end.
Proof. unfold parsed_domains. simpl. by destruct (urlparse_netloc url). Qed.

Lemma count_domains_has_domain (urlparse_netloc : str → result str) (domain : str)
    (all_urls : list str) :
  count_of domain (parsed_domains urlparse_netloc all_urls) =
  length (filter (λ url, has_domain urlparse_netloc domain url = true) all_urls).
Proof.
  induction all_urls as [|url urls IH]; [done|].
  rewrite parsed_domains_cons, filter_cons.
  destruct (has_domain urlparse_netloc domain url) eqn:E.
  - rewrite decide_True by done. unfold has_domain in E.
    destruct (urlparse_netloc url) as [d|e]; [|done].
    apply bool_decide_eq_true in E as ->.
    rewrite count_of_cons, decide_True by done. simpl. by rewrite IH.
  - rewrite decide_False by done. unfold has_domain in E.
    destruct (urlparse_netloc url) as [d|e]; [|done].
    apply bool_decide_eq_false in E.
    by rewrite count_of_cons, decide_False by done.
Qed.

Lemma parsed_domains_length (urlparse_netloc : str → result str) (all_urls : list str) :
  (length (parsed_domains urlparse_netloc all_urls) ≤ length all_urls)%nat.
Proof.
  induction all_urls as [|url urls IH]; [done|].
  rewrite parsed_domains_cons. destruct (urlparse_netloc url); simpl; lia.
Qed.

Lemma url_analysis_parsed (urlparse_netloc : str → result str) (unique_urls : list str) :
  Summarizer.url_analysis urlparse_netloc unique_urls =
  count_into [] (parsed_domains urlparse_netloc unique_urls).
Proof.
  unfold Summarizer.url_analysis, count_into, parsed_domains.
  generalize (@nil (str * nat)).
  induction unique_urls as [|url urls IH]; intros d; simpl; [done|].
  rewrite IH. by destruct (urlparse_netloc url).
Qed.

End HistogramFacts.

Section MoreLookups.

Lemma summarizer_digest_sentiments (emails : list Summarizer.email) :
  emails ≠ [] →
  Summarizer.create_digest emails !! "sentiment_distribution"%string =
  Some (VDict (count_into [] (map Summarizer.sentiment emails))).
Proof.
  intros H. unfold Summarizer.create_digest. rewrite bool_decide_false by done.
  by simplify_map_eq.
Qed.

Lemma summarizer_digest_action_items (emails : list Summarizer.email) :
  emails ≠ [] →
  Summarizer.create_digest emails !! "action_items"%string =
  Some (VStrs (concat (map Summarizer.action_items emails))).
Proof.
  intros H. unfold Summarizer.create_digest. rewrite bool_decide_false by done.
  cbv zeta. rewrite !foldl_extend. by simplify_map_eq.
Qed.

Lemma summarizer_digest_date_range (emails : list Summarizer.email) :
  emails ≠ [] →
  Summarizer.create_digest emails !! "date_range"%string =
  Some (VDateRange (Summarizer.date <$> last emails) (Summarizer.date <$> head emails)).
Proof.
  intros H. unfold Summarizer.create_digest. rewrite bool_decide_false by done.
  by simplify_map_eq.
Qed.

Lemma extractor_digest_date_range (urlparse_netloc : str → result str)
    (emails : list Extractor.email) :
  emails ≠ [] →
  Extractor.create_digest urlparse_netloc emails !! "date_range"%string =
  Some (VDateRange (Extractor.date <$> last emails) (Extractor.date <$> head emails)).
Proof.
  intros H. unfold Extractor.create_digest. rewrite bool_decide_false by done.
  by simplify_map_eq.
Qed.

Lemma extractor_digest_total_urls (urlparse_netloc : str → result str)
    (emails : list Extractor.email) :
  emails ≠ [] →
  Extractor.create_digest urlparse_netloc emails !! "total_urls"%string =
  Some (VInt (length (concat (map Extractor.urls emails)))).
Proof.
  intros H. unfold Extractor.create_digest. rewrite bool_decide_false by done.
  cbv zeta. rewrite foldl_extend. by simplify_map_eq.
Qed.

End MoreLookups.

(** X5. The two histograms partition the batch.  For a non-empty sequence
    of records, [sentiment_distribution] holds one entry per distinct
    sentiment, in order of first appearance, with the number of records of
    that sentiment; the counts add up to [total_emails].  The date counts
    of the dashboard do the same for the first ten characters of the
    dates. *)
Theorem histograms_partition_batch :
  ∀ emails : list Summarizer.email,
    emails ≠ [] →
    (∃ d, Summarizer.create_digest emails !! "sentiment_distribution"%string
            = Some (VDict d) ∧
          d.*1 = first_seen (map Summarizer.sentiment emails) ∧
          (∀ k n, (k, n) ∈ d ↔
                  k ∈ map Summarizer.sentiment emails ∧
                  n = count_of k (map Summarizer.sentiment emails)) ∧
          sum_list d.*2 = length emails) ∧
    (∀ k n, (k, n) ∈ Summarizer.date_counts emails ↔
            k ∈ map (λ e, take 10 (Summarizer.date e)) emails ∧
            n = count_of k (map (λ e, take 10 (Summarizer.date e)) emails)) ∧
    sum_list (Summarizer.date_counts emails).*2 = length emails.
Proof.
  intros emails H.
  destruct (count_into_histogram (map Summarizer.sentiment emails)) as (H1 & H2 & H3).
  destruct (count_into_histogram (map (λ e, take 10 (Summarizer.date e)) emails))
    as (_ & H5 & H6).
  rewrite length_map in H3, H6. split_and!; [|exact H5|exact H6].
  eexists. split; [by apply summarizer_digest_sentiments|]. by split_and!.
Qed.

Lemma histograms_partition_batch_witness :
  sum_list (Summarizer.date_counts
              [summarizer_email (py "A") []; summarizer_email (py "B") []]).*2 = 2%nat.
Proof.
  refine (proj2 (proj2 (histograms_partition_batch
            [summarizer_email (py "A") []; summarizer_email (py "B") []] _))).
  discriminate.
Defined.

(** X6. Digests of joined batches.  The digest of two batches put one
    after the other has the action items of the first followed by those of
    the second, the sum of the two totals, and a date range that starts
    where the second batch's range starts and ends where the first batch's
    range ends. *)
Theorem create_digest_of_joined_batches :
  ∀ (emails1 emails2 : list Summarizer.email) (a1 a2 : list str)
    (s1 t1 s2 t2 : option str) (n1 n2 : nat),
    Summarizer.create_digest emails1 !! "action_items"%string = Some (VStrs a1) →
    Summarizer.create_digest emails2 !! "action_items"%string = Some (VStrs a2) →
    Summarizer.create_digest emails1 !! "date_range"%string = Some (VDateRange s1 t1) →
    Summarizer.create_digest emails2 !! "date_range"%string = Some (VDateRange s2 t2) →
    Summarizer.create_digest emails1 !! "total_emails"%string = Some (VInt n1) →
    Summarizer.create_digest emails2 !! "total_emails"%string = Some (VInt n2) →
    Summarizer.create_digest (emails1 ++ emails2) !! "action_items"%string
      = Some (VStrs (a1 ++ a2)) ∧
    Summarizer.create_digest (emails1 ++ emails2) !! "date_range"%string
      = Some (VDateRange s2 t1) ∧
    Summarizer.create_digest (emails1 ++ emails2) !! "total_emails"%string
      = Some (VInt (n1 + n2)).
Proof.
  intros e1 e2 a1 a2 s1 t1 s2 t2 n1 n2 Ha1 Ha2 Hd1 Hd2 Hn1 Hn2.
  assert (e1 ≠ []) as He1 by (by intros ->).
  assert (e2 ≠ []) as He2 by (by intros ->).
  assert (e1 ++ e2 ≠ []) as He by (by destruct e1).
  rewrite summarizer_digest_action_items in Ha1, Ha2 |- * by done.
  rewrite summarizer_digest_date_range in Hd1, Hd2 |- * by done.
  rewrite summarizer_digest_total in Hn1, Hn2 |- * by done.
  injection Ha1 as <-. injection Ha2 as <-.
  injection Hd1 as <- <-. injection Hd2 as <- <-.
  injection Hn1 as <-. injection Hn2 as <-.
  split_and!.
  - by rewrite map_app, concat_app.
  - rewrite last_app, head_app.
    destruct (last e2) eqn:E2; [|by apply last_None in E2].
    destruct (head e1) eqn:E1; [done|by apply head_None in E1].
  - by rewrite length_app.
Qed.

Lemma create_digest_of_joined_batches_witness :
  Summarizer.create_digest
    ([summarizer_email (py "A") []] ++ [summarizer_email (py "B") []])
    !! "total_emails"%string = Some (VInt (1 + 1)).
Proof.
  apply (create_digest_of_joined_batches
           [summarizer_email (py "A") []] [summarizer_email (py "B") []]
           [] [] (Some (py "Unknown Date")) (Some (py "Unknown Date"))
           (Some (py "Unknown Date")) (Some (py "Unknown Date")) 1 1);
    reflexivity.
Defined.

Section TopFacts.

Lemma ranking_head_max (keys : list str) (l : list (str * nat)) :
  keys ≠ [] → ranking keys l →
  ∃ k n rest, l = (k, n) :: rest ∧ k ∈ keys ∧ n = count_of k keys ∧
              (0 < n)%nat ∧ ∀ k', (count_of k' keys ≤ n)%nat.
Proof.
  intros Hne (_ & Hin & Hsorted).
  destruct l as [|[k n] rest].
  { destruct keys as [|k0 keys]; [done|].
    assert ((k0, count_of k0 (k0 :: keys)) ∈ @nil (str * nat)) as H
      by (apply Hin; split; [apply list_elem_of_here|done]).
    by apply elem_of_nil in H. }
  exists k, n, rest. split; [done|].
  destruct (proj1 (Hin k n) (list_elem_of_here _ _)) as [Hk Hn].
  split_and!; [done..| |].
  - subst n. by apply count_of_pos.
  - intros k'. destruct (decide (k' ∈ keys)) as [Hk'|Hk'].
    + assert ((k', count_of k' keys) ∈ (k, n) :: rest) as H by (by apply Hin).
      apply elem_of_cons in H as [[= -> <-]|H]; [done|].
      apply StronglySorted_inv in Hsorted as [_ Hall].
      rewrite Forall_forall in Hall. specialize (Hall _ H).
      unfold ranks_before in Hall. simpl in Hall. lia.
    + rewrite count_of_not_elem by done. lia.
Qed.

Lemma first_seen_length (xs : list str) :
  length (first_seen xs) = size (list_to_set xs : gset str).
Proof.
  unfold size, set_size. simpl. apply Permutation_length, NoDup_Permutation.
  - apply first_seen_NoDup.
  - apply NoDup_elements.
  - intros k. by rewrite first_seen_elem, elem_of_elements, elem_of_list_to_set.
Qed.

Lemma top_counts (n : nat) (xs : list str) :
  length (take n (sorted_by_count_desc (count_into [] xs)))
    = (n `min` size (list_to_set xs : gset str))%nat ∧
  (sum_list (take n (sorted_by_count_desc (count_into [] xs))).*2 ≤ length xs)%nat ∧
  ((size (list_to_set xs : gset str) ≤ n)%nat →
   sum_list (take n (sorted_by_count_desc (count_into [] xs))).*2 = length xs).
Proof.
  assert (length (sorted_by_count_desc (count_into [] xs))
          = size (list_to_set xs : gset str)) as Hlen.
  { rewrite sorted_by_count_desc_Permutation, <-first_seen_length.
    by rewrite count_into_first_seen, length_map. }
  assert (sum_list (sorted_by_count_desc (count_into [] xs)).*2 = length xs) as Hsum.
  { rewrite sorted_by_count_desc_Permutation. apply count_into_histogram. }
  split_and!.
  - by rewrite length_take, Hlen.
  - rewrite fmap_take, <-Hsum. apply sum_list_take.
  - intros Hle. rewrite take_ge by lia. done.
Qed.

End TopFacts.

(** X8. The first entry of [top_senders] names a most frequent sender:
    for a non-empty sequence of records the list starts with a sender of
    the batch and the number of its records, and no sender has more. *)
Theorem top_sender_is_most_frequent :
  (∀ emails : list Summarizer.email, emails ≠ [] →
     ∃ k n rest,
       Summarizer.create_digest emails !! "top_senders"%string
         = Some (VPairs ((k, n) :: rest)) ∧
       k ∈ map Summarizer.sender emails ∧
       n = count_of k (map Summarizer.sender emails) ∧ (0 < n)%nat ∧
       ∀ k', (count_of k' (map Summarizer.sender emails) ≤ n)%nat) ∧
  (∀ urlparse_netloc (emails : list Extractor.email), emails ≠ [] →
     ∃ k n rest,
       Extractor.create_digest urlparse_netloc emails !! "top_senders"%string
         = Some (VPairs ((k, n) :: rest)) ∧
       k ∈ map Extractor.sender emails ∧
       n = count_of k (map Extractor.sender emails) ∧ (0 < n)%nat ∧
       ∀ k', (count_of k' (map Extractor.sender emails) ≤ n)%nat).
Proof.
  split.
  - intros emails H.
    destruct (ranking_head_max (map Summarizer.sender emails) _
                ltac:(by destruct emails)
                (ranking_sorted_counts (map Summarizer.sender emails)))
      as (k & n & rest & Hl & Hrest).
    exists k, n, (take 4 rest). split; [|done].
    rewrite summarizer_digest_top_senders by done. by rewrite Hl.
  - intros netloc emails H.
    destruct (ranking_head_max (map Extractor.sender emails) _
                ltac:(by destruct emails)
                (ranking_sorted_counts (map Extractor.sender emails)))
      as (k & n & rest & Hl & Hrest).
    exists k, n, (take 4 rest). split; [|done].
    rewrite extractor_digest_top_senders by done. by rewrite Hl.
Qed.

Lemma top_sender_is_most_frequent_witness :
  ∃ k n rest,
    Summarizer.create_digest
      [summarizer_email (py "B") []; summarizer_email (py "A") [];
       summarizer_email (py "A") []] !! "top_senders"%string
      = Some (VPairs ((k, n) :: rest)) ∧
    k ∈ map Summarizer.sender
          [summarizer_email (py "B") []; summarizer_email (py "A") [];
           summarizer_email (py "A") []] ∧
    n = count_of k (map Summarizer.sender
                      [summarizer_email (py "B") []; summarizer_email (py "A") [];
                       summarizer_email (py "A") []]) ∧ (0 < n)%nat ∧
    ∀ k', (count_of k' (map Summarizer.sender
                          [summarizer_email (py "B") []; summarizer_email (py "A") [];
                           summarizer_email (py "A") []]) ≤ n)%nat.
Proof.
  apply (proj1 top_sender_is_most_frequent
           [summarizer_email (py "B") []; summarizer_email (py "A") [];
            summarizer_email (py "A") []]).
  discriminate.
Defined.

(** X9. The size of [top_senders].  For a non-empty sequence of records
    the list has as many entries as there are distinct senders, but no
    more than five; its counts add up to at most [total_emails], and to
    exactly [total_emails] when there are at most five distinct senders. *)
Theorem top_senders_size :
  (∀ emails : list Summarizer.email, emails ≠ [] →
     ∃ l, Summarizer.create_digest emails !! "top_senders"%string = Some (VPairs l) ∧
          length l = (5 `min` size (list_to_set (map Summarizer.sender emails) : gset str))%nat ∧
          (sum_list l.*2 ≤ length emails)%nat ∧
          ((size (list_to_set (map Summarizer.sender emails) : gset str) ≤ 5)%nat →
           sum_list l.*2 = length emails)) ∧
  (∀ urlparse_netloc (emails : list Extractor.email), emails ≠ [] →
     ∃ l, Extractor.create_digest urlparse_netloc emails !! "top_senders"%string
            = Some (VPairs l) ∧
          length l = (5 `min` size (list_to_set (map Extractor.sender emails) : gset str))%nat ∧
          (sum_list l.*2 ≤ length emails)%nat ∧
          ((size (list_to_set (map Extractor.sender emails) : gset str) ≤ 5)%nat →
           sum_list l.*2 = length emails)).
Proof.
  split.
  - intros emails H. eexists. split; [by apply summarizer_digest_top_senders|].
    destruct (top_counts 5 (map Summarizer.sender emails)) as (H1 & H2 & H3).
    rewrite length_map in H2, H3. done.
  - intros netloc emails H. eexists. split; [by apply extractor_digest_top_senders|].
    destruct (top_counts 5 (map Extractor.sender emails)) as (H1 & H2 & H3).
    rewrite length_map in H2, H3. done.
Qed.

Lemma top_senders_size_witness :
  ∃ l, Summarizer.create_digest
         [summarizer_email (py "B") []; summarizer_email (py "A") []]
         !! "top_senders"%string = Some (VPairs l) ∧
       length l = (5 `min` size (list_to_set (map Summarizer.sender
                      [summarizer_email (py "B") []; summarizer_email (py "A") []])
                    : gset str))%nat ∧
       (sum_list l.*2 ≤ 2)%nat ∧
       ((size (list_to_set (map Summarizer.sender
                 [summarizer_email (py "B") []; summarizer_email (py "A") []])
               : gset str) ≤ 5)%nat →
        sum_list l.*2 = 2%nat).
Proof.
  apply (proj1 top_senders_size
           [summarizer_email (py "B") []; summarizer_email (py "A") []]).
  discriminate.
Defined.

Section TotalsFacts.

Lemma length_concat_map {A} (f : A → list str) (l : list A) :
  length (concat (map f l)) = sum_list (map (λ x, length (f x)) l).
Proof.
  induction l as [|x l IH]; [done|]. simpl. by rewrite length_app, IH.
Qed.

Lemma list_of_set_length_eq (xs : list str) :
  length (list_of_set xs) = length xs ↔ NoDup xs.
Proof.
  split.
  - intros Hlen.
    assert (list_of_set xs ≡ₚ xs) as <-; [|apply list_of_set_NoDup].
    apply submseteq_length_Permutation; [|lia].
    apply NoDup_submseteq; [apply list_of_set_NoDup|].
    intros x. by rewrite list_of_set_elem.
  - intros Hnd. unfold list_of_set. by rewrite elements_list_to_set.
Qed.

End TotalsFacts.

(** X10. The URL totals of the extractor's digest.  For a non-empty
    sequence of records, [total_urls] is the sum of the lengths of the
    records' [urls] lists; [unique_urls] is never longer, and is as long
    exactly when no URL is listed twice; the counts of [url_domains] add
    up to at most [total_urls]. *)
Theorem extractor_url_totals :
  ∀ (urlparse_netloc : str → result str) (emails : list Extractor.email),
    emails ≠ [] →
    ∃ us ds,
      Extractor.create_digest urlparse_netloc emails !! "total_urls"%string
        = Some (VInt (sum_list (map (λ e, length (Extractor.urls e)) emails))) ∧
      Extractor.create_digest urlparse_netloc emails !! "unique_urls"%string
        = Some (VStrs us) ∧
      Extractor.create_digest urlparse_netloc emails !! "url_domains"%string
        = Some (VPairs ds) ∧
      (length us ≤ sum_list (map (λ e, length (Extractor.urls e)) emails))%nat ∧
      (length us = sum_list (map (λ e, length (Extractor.urls e)) emails)
       ↔ NoDup (concat (map Extractor.urls emails))) ∧
      (sum_list ds.*2 ≤ sum_list (map (λ e, length (Extractor.urls e)) emails))%nat.
Proof.
  intros netloc emails H.
  rewrite <-length_concat_map.
  eexists _, _. split_and!.
  - by apply extractor_digest_total_urls.
  - by apply extractor_digest_unique_urls.
  - by apply extractor_digest_url_domains.
  - apply list_of_set_length.
  - apply list_of_set_length_eq.
  - rewrite count_domains_parsed.
    destruct (top_counts 10 (parsed_domains netloc (concat (map Extractor.urls emails))))
      as (_ & Hle & _).
    etrans; [exact Hle|]. apply parsed_domains_length.
Qed.

Lemma extractor_url_totals_witness :
  ∃ us ds,
    Extractor.create_digest Urllib.netloc
      [extractor_email (py "A") [py "http://a.com/x"; py "http://b.org"];
       extractor_email (py "B") [py "http://a.com/x"]] !! "total_urls"%string
      = Some (VInt (sum_list (map (λ e, length (Extractor.urls e))
           [extractor_email (py "A") [py "http://a.com/x"; py "http://b.org"];
            extractor_email (py "B") [py "http://a.com/x"]]))) ∧
    Extractor.create_digest Urllib.netloc
      [extractor_email (py "A") [py "http://a.com/x"; py "http://b.org"];
       extractor_email (py "B") [py "http://a.com/x"]] !! "unique_urls"%string
      = Some (VStrs us) ∧
    Extractor.create_digest Urllib.netloc
      [extractor_email (py "A") [py "http://a.com/x"; py "http://b.org"];
       extractor_email (py "B") [py "http://a.com/x"]] !! "url_domains"%string
      = Some (VPairs ds) ∧
    (length us ≤ sum_list (map (λ e, length (Extractor.urls e))
       [extractor_email (py "A") [py "http://a.com/x"; py "http://b.org"];
        extractor_email (py "B") [py "http://a.com/x"]]))%nat ∧
    (length us = sum_list (map (λ e, length (Extractor.urls e))
       [extractor_email (py "A") [py "http://a.com/x"; py "http://b.org"];
        extractor_email (py "B") [py "http://a.com/x"]])
     ↔ NoDup (concat (map Extractor.urls
       [extractor_email (py "A") [py "http://a.com/x"; py "http://b.org"];
        extractor_email (py "B") [py "http://a.com/x"]]))) ∧
    (sum_list ds.*2 ≤ sum_list (map (λ e, length (Extractor.urls e))
       [extractor_email (py "A") [py "http://a.com/x"; py "http://b.org"];
        extractor_email (py "B") [py "http://a.com/x"]]))%nat.
Proof.
  apply (extractor_url_totals Urllib.netloc
           [extractor_email (py "A") [py "http://a.com/x"; py "http://b.org"];
            extractor_email (py "B") [py "http://a.com/x"]]).
  discriminate.
Defined.

(** X11. What the two domain loops count.  The loop of the extractor's
    [create_digest] and the URL analysis of the summarizer's dashboard
    both yield, for the list they run over, one entry per network location
    that [urlparse] finds, with the number of listed URLs that have this
    location; a URL that [urlparse] rejects is skipped, and the counts add
    up to the number of URLs that are not. *)
Theorem domain_loops_count_urls :
  ∀ (urlparse_netloc : str → result str) (urls : list str),
    (NoDup (Extractor.count_domains urlparse_netloc urls).*1 ∧
     (∀ domain n,
        (domain, n) ∈ Extractor.count_domains urlparse_netloc urls ↔
        (0 < n)%nat ∧
        n = length (filter (λ url, has_domain urlparse_netloc domain url = true) urls)) ∧
     sum_list (Extractor.count_domains urlparse_netloc urls).*2
       = length (parsed_domains urlparse_netloc urls)) ∧
    Summarizer.url_analysis urlparse_netloc urls
      = Extractor.count_domains urlparse_netloc urls.
Proof.
  intros netloc urls. rewrite url_analysis_parsed, count_domains_parsed.
  split; [|done].
  destruct (count_into_histogram (parsed_domains netloc urls)) as (H1 & H2 & H3).
  split_and!.
  - rewrite H1. apply first_seen_NoDup.
  - intros domain n. rewrite H2, <-count_domains_has_domain. split.
    + intros [Hin ->]. split; [by apply count_of_pos|done].
    + intros [Hpos ->]. split; [|done].
      destruct (decide (domain ∈ parsed_domains netloc urls)) as [|Hnot]; [done|].
      rewrite count_of_not_elem in Hpos by done. lia.
  - done.
Qed.

Lemma domain_loops_count_urls_witness :
  (0 < 2)%nat ∧
  2%nat = length (filter (λ url, has_domain Urllib.netloc (py "a.com") url = true)
                    [py "http://a.com/x"; py "http://b.org"; py "http://a.com/y"]).
Proof.
  apply (proj1 (proj1 (proj2 (proj1 (domain_loops_count_urls Urllib.netloc
           [py "http://a.com/x"; py "http://b.org"; py "http://a.com/y"])))
           (py "a.com") 2%nat)).
  vm_compute. apply list_elem_of_here.
Defined.

(** ** Reading one message *)

Section HeaderFacts.
Import Gmail.

Lemma header_first (name dflt : str) (hs : list (str * str)) :
  first_header hs name dflt (header name dflt hs).
Proof.
  induction hs as [|[n v] hs IH]; simpl.
  - left. split; [apply not_elem_of_nil|done].
  - case_bool_decide as Hn.
    + subst n. right. exists [], hs. split; [done|apply not_elem_of_nil].
    + destruct IH as [[Hnot Hv]|(pre & post & Heq & Hpre)].
      * left. split; [|done]. rewrite fmap_cons, not_elem_of_cons.
        split; [by intros ->|done].
      * right. exists ((n, v) :: pre), post. split; [simpl; by f_equal|].
        rewrite fmap_cons, not_elem_of_cons. split; [by intros ->|done].
Qed.

End HeaderFacts.

(** X12. What [get_email_content] returns for a fetched message.  When
    cleaning the selected body raises (the parser failed), the result is
    four empty strings: the headers of the message are dropped too.
    Otherwise the content is the cleaned body, and subject, sender and
    date are each the value of the first header named exactly [Subject],
    [From], [Date], or [No Subject], [Unknown Sender], [Unknown Date] when
    there is no such header.  A message whose selected body is empty gets
    the empty content without the decoder or the parser being consulted. *)
Theorem get_email_content_outcomes :
  ∀ (urlsafe_b64decode : str → result bytes) (decode_utf8 : bytes → result str)
    (soup_get_text : str → result str) (message : Gmail.payload),
    (∀ e,
       Summarizer.clean_email_content urlsafe_b64decode decode_utf8 soup_get_text
         (Summarizer.select_body message) = Raise e →
       Summarizer.get_email_content urlsafe_b64decode decode_utf8 soup_get_text message
         = ([], [], [], [])) ∧
    (∀ cleaned,
       Summarizer.clean_email_content urlsafe_b64decode decode_utf8 soup_get_text
         (Summarizer.select_body message) = Ret cleaned →
       ∃ subject sender date,
         Summarizer.get_email_content urlsafe_b64decode decode_utf8 soup_get_text message
           = (cleaned, subject, sender, date) ∧
         whitespace_normalized cleaned ∧
         first_header (Gmail.headers message) (py "Subject") (py "No Subject") subject ∧
         first_header (Gmail.headers message) (py "From") (py "Unknown Sender") sender ∧
         first_header (Gmail.headers message) (py "Date") (py "Unknown Date") date) ∧
    (Summarizer.select_body message = [] →
     ∃ subject sender date,
       Summarizer.get_email_content urlsafe_b64decode decode_utf8 soup_get_text message
         = ([], subject, sender, date) ∧
       first_header (Gmail.headers message) (py "Subject") (py "No Subject") subject ∧
       first_header (Gmail.headers message) (py "From") (py "Unknown Sender") sender ∧
       first_header (Gmail.headers message) (py "Date") (py "Unknown Date") date) ∧
    Extractor.get_email_content urlsafe_b64decode decode_utf8 soup_get_text message
      = Summarizer.get_email_content urlsafe_b64decode decode_utf8 soup_get_text message.
Proof.
  intros b64 utf8 soup message. unfold Summarizer.get_email_content. split_and!.
  - by intros e ->.
  - intros cleaned Hc. rewrite Hc. eexists _, _, _. split; [done|].
    split; [by eapply clean_email_content_normalized|].
    split_and!; apply header_first.
  - intros ->. eexists _, _, _. split; [done|]. split_and!; apply header_first.
  - reflexivity.
Qed.

Lemma get_email_content_outcomes_witness :
  ∃ subject sender date,
    Summarizer.get_email_content Base64.urlsafe_b64decode decode_ascii
      text_without_markup three_parts = (py "P1", subject, sender, date) ∧
    whitespace_normalized (py "P1") ∧
    first_header (Gmail.headers three_parts) (py "Subject") (py "No Subject") subject ∧
    first_header (Gmail.headers three_parts) (py "From") (py "Unknown Sender") sender ∧
    first_header (Gmail.headers three_parts) (py "Date") (py "Unknown Date") date.
Proof.
  apply (proj1 (proj2 (get_email_content_outcomes Base64.urlsafe_b64decode decode_ascii
                         text_without_markup three_parts))).
  reflexivity.
Defined.

(** ** Fetching a batch *)

Section FetchFacts.
Import Gmail.

Context (urlsafe_b64decode : str → result bytes).
Context (decode_utf8 : bytes → result str).
Context (soup_get_text : str → result str).

Lemma email_data_id (svc : service) (message_id : str) :
  Extractor.id
    (Extractor.email_data urlsafe_b64decode decode_utf8 soup_get_text svc message_id)
  = message_id.
Proof.
  unfold Extractor.email_data.
  by destruct (Extractor.get_email_content_by_id urlsafe_b64decode decode_utf8
     soup_get_text svc message_id) as [[[? ?] ?] ?].
Qed.

Lemma content_by_id_normalized (svc : service) (message_id : str) :
  whitespace_normalized
    (Extractor.get_email_content_by_id urlsafe_b64decode decode_utf8
     soup_get_text svc message_id).1.1.1.
Proof.
  assert (whitespace_normalized []) as Hnil.
  { split_and!; [constructor| |by split]. intros pre post H. by destruct pre. }
  unfold Extractor.get_email_content_by_id.
  destruct (messages_get svc message_id) as [message|e]; [|done].
  unfold Extractor.get_email_content.
  destruct (Extractor.clean_email_content _ _ _ _) as [c|e] eqn:E; [|done].
  simpl. by eapply (clean_email_content_normalized _ _ _ _ c).
Qed.

Lemma email_data_failed (svc : service) (message_id : str) (e : exn) :
  messages_get svc message_id = Raise e →
  Extractor.email_data urlsafe_b64decode decode_utf8 soup_get_text svc message_id
  = empty_record message_id.
Proof.
  intros H. unfold Extractor.email_data, Extractor.get_email_content_by_id.
  rewrite H. reflexivity.
Qed.

Lemma email_data_invariants (svc : service) (message_id : str) :
  let r := Extractor.email_data urlsafe_b64decode decode_utf8 soup_get_text
             svc message_id in
  let full :=
    (Extractor.get_email_content_by_id urlsafe_b64decode decode_utf8
     soup_get_text svc message_id).1.1.1 in
  Extractor.url_count r = length (Extractor.urls r) ∧
  NoDup (Extractor.urls r) ∧
  (∀ u, u ∈ Extractor.urls r → maximal_url_match full u) ∧
  whitespace_normalized full ∧
  ((length full ≤ 500)%nat → Extractor.content r = full) ∧
  ((500 < length full)%nat →
   Extractor.content r = take 500 full ++ py "..." ∧
   length (Extractor.content r) = 503%nat).
Proof.
  pose proof (content_by_id_normalized svc message_id) as Hnorm.
  unfold Extractor.email_data.
  destruct (Extractor.get_email_content_by_id urlsafe_b64decode decode_utf8
     soup_get_text svc message_id) as [[[c s] f] d]. simpl in *.
  split_and!.
  - done.
  - apply list_of_set_NoDup.
  - intros u Hu. by apply extract_urls_maximal.
  - done.
  - intros Hle. by rewrite bool_decide_false by lia.
  - intros Hlt. rewrite bool_decide_true by done. split; [done|].
    rewrite length_app, length_take_le by lia. reflexivity.
Qed.

End FetchFacts.

(** X13. [fetch_emails] of the extractor returns one record for every
    message that the service lists, in the order of the listing and under
    the message's id; a message that cannot be retrieved does not end the
    batch: its record has empty subject, sender, date and content and no
    URLs.  Nothing is returned without a service, when the listing raises,
    or when the listing has no [messages] key. *)
Theorem fetch_emails_one_record_per_message :
  ∀ (urlsafe_b64decode : str → result bytes) (decode_utf8 : bytes → result str)
    (soup_get_text : str → result str) (svc : Gmail.service) (query : str)
    (max_results : nat),
    Extractor.fetch_emails urlsafe_b64decode decode_utf8 soup_get_text
      None query max_results = [] ∧
    (∀ e, Gmail.messages_list svc query max_results = Raise e →
          Extractor.fetch_emails urlsafe_b64decode decode_utf8 soup_get_text
            (Some svc) query max_results = []) ∧
    (Gmail.messages_list svc query max_results = Ret None →
     Extractor.fetch_emails urlsafe_b64decode decode_utf8 soup_get_text
       (Some svc) query max_results = []) ∧
    (∀ ids, Gmail.messages_list svc query max_results = Ret (Some ids) →
       map Extractor.id
         (Extractor.fetch_emails urlsafe_b64decode decode_utf8 soup_get_text
            (Some svc) query max_results) = ids ∧
       ∀ i message_id e,
         ids !! i = Some message_id →
         Gmail.messages_get svc message_id = Raise e →
         Extractor.fetch_emails urlsafe_b64decode decode_utf8 soup_get_text
           (Some svc) query max_results !! i = Some (empty_record message_id)).
Proof.
  intros b64 utf8 soup svc query n. unfold Extractor.fetch_emails. split_and!.
  - done.
  - by intros e ->.
  - by intros ->.
  - intros ids ->. simpl. split.
    + rewrite map_map. rewrite <-(map_id ids) at 2. apply map_ext.
      intros i. apply email_data_id.
    + intros i message_id e Hi He.
      change (map ?f ids) with (f <$> ids). rewrite list_lookup_fmap, Hi. simpl.
      f_equal. by eapply email_data_failed.
Qed.

Lemma fetch_emails_one_record_per_message_witness :
  map Extractor.id
    (Extractor.fetch_emails Base64.urlsafe_b64decode decode_ascii text_without_markup
       (Some sample_service) [] 50) = [py "m1"; py "m2"] ∧
  Extractor.fetch_emails Base64.urlsafe_b64decode decode_ascii text_without_markup
    (Some sample_service) [] 50 !! 1%nat = Some (empty_record (py "m2")).
Proof.
  destruct (proj2 (proj2 (proj2 (fetch_emails_one_record_per_message
              Base64.urlsafe_b64decode decode_ascii text_without_markup
              sample_service [] 50))) [py "m1"; py "m2"] eq_refl) as [H1 H2].
  split; [exact H1|]. apply (H2 1%nat (py "m2") ValueError); reflexivity.
Defined.

(** X14. The records that [fetch_emails] builds.  In every record
    [url_count] is the length of [urls], [urls] has no duplicates and the
    stored content has at most 503 characters.  For the listed message at
    position [i], retrieved as [message], whose selected body is cleaned
    to [full]: the record at position [i] carries the message's id; its
    [urls] are the URLs extracted from the whole of [full], each a maximal
    match in [full]; its stored content is [full] when [full] has at most
    500 characters and otherwise the first 500 characters of [full]
    followed by three full stops, so that [urls] may hold URLs that the
    stored content no longer shows.  When cleaning the body raises, the
    record is the empty one. *)
Theorem fetch_emails_records :
  ∀ (urlsafe_b64decode : str → result bytes) (decode_utf8 : bytes → result str)
    (soup_get_text : str → result str) (svc : Gmail.service)
    (query : str) (max_results : nat),
    (∀ self_service r,
       r ∈ Extractor.fetch_emails urlsafe_b64decode decode_utf8 soup_get_text
             self_service query max_results →
       Extractor.url_count r = length (Extractor.urls r) ∧
       NoDup (Extractor.urls r) ∧
       (length (Extractor.content r) ≤ 503)%nat) ∧
    (∀ ids i message_id message,
       Gmail.messages_list svc query max_results = Ret (Some ids) →
       ids !! i = Some message_id →
       Gmail.messages_get svc message_id = Ret message →
       (∀ full,
          Extractor.clean_email_content urlsafe_b64decode decode_utf8 soup_get_text
            (Extractor.select_body message) = Ret full →
          ∃ r,
            Extractor.fetch_emails urlsafe_b64decode decode_utf8 soup_get_text
              (Some svc) query max_results !! i = Some r ∧
            Extractor.id r = message_id ∧
            Extractor.urls r = Extractor.extract_urls_from_text full ∧
            (∀ u, u ∈ Extractor.urls r → maximal_url_match full u) ∧
            whitespace_normalized full ∧
            ((length full ≤ 500)%nat → Extractor.content r = full) ∧
            ((500 < length full)%nat →
             Extractor.content r = take 500 full ++ py "...")) ∧
       (∀ e,
          Extractor.clean_email_content urlsafe_b64decode decode_utf8 soup_get_text
            (Extractor.select_body message) = Raise e →
          Extractor.fetch_emails urlsafe_b64decode decode_utf8 soup_get_text
            (Some svc) query max_results !! i = Some (empty_record message_id))).
Proof.
  intros b64 utf8 soup svc query n. split.
  - intros service r. unfold Extractor.fetch_emails.
    destruct service as [svc'|]; [|by intros ?%elem_of_nil].
    destruct (Gmail.messages_list svc' query n) as [results|e];
      [|by intros ?%elem_of_nil].
    intros (message_id & -> & _)%list_elem_of_fmap.
    destruct (email_data_invariants b64 utf8 soup svc' message_id)
      as (H1 & H2 & _ & _ & H5 & H6).
    split_and!; [done..|].
    destruct (decide (length (Extractor.get_email_content_by_id b64 utf8 soup svc'
                                message_id).1.1.1 ≤ 500)%nat) as [Hle|Hgt].
    + rewrite H5 by done. lia.
    + destruct H6 as [_ ->]; lia.
  - intros ids i message_id message Hlist Hi Hget.
    assert (Extractor.fetch_emails b64 utf8 soup (Some svc) query n !! i
            = Some (Extractor.email_data b64 utf8 soup svc message_id)) as Hrec.
    { unfold Extractor.fetch_emails. rewrite Hlist. simpl.
      change (map ?f ids) with (f <$> ids). by rewrite list_lookup_fmap, Hi. }
    split.
    + intros full Hclean.
      assert ((Extractor.get_email_content_by_id b64 utf8 soup svc message_id).1.1.1
              = full) as Hfull.
      { unfold Extractor.get_email_content_by_id. rewrite Hget.
        unfold Extractor.get_email_content. by rewrite Hclean. }
      destruct (email_data_invariants b64 utf8 soup svc message_id)
        as (_ & _ & H3 & H4 & H5 & H6).
      rewrite Hfull in H3, H4, H5, H6.
      eexists. split; [exact Hrec|]. split_and!.
      * apply email_data_id.
      * unfold Extractor.email_data.
        destruct (Extractor.get_email_content_by_id b64 utf8 soup svc message_id)
          as [[[c s] f] d]. simpl in Hfull. by subst c.
      * exact H3.
      * exact H4.
      * exact H5.
      * intros Hlt. by apply H6.
    + intros e Hclean. rewrite Hrec. f_equal.
      unfold Extractor.email_data, Extractor.get_email_content_by_id.
      rewrite Hget. unfold Extractor.get_email_content. by rewrite Hclean.
Qed.

Lemma fetch_emails_records_witness :
  ∃ r,
    Extractor.fetch_emails Base64.urlsafe_b64decode decode_ascii text_without_markup
      (Some long_message_service) [] 50 !! 0%nat = Some r ∧
    Extractor.urls r = [py "http://a.com/x"] ∧
    Extractor.content r = repeat (ch "a") 500 ++ py "...".
Proof.
  destruct (proj1 (proj2 (fetch_emails_records Base64.urlsafe_b64decode decode_ascii
                     text_without_markup long_message_service [] 50)
                   [py "m1"] 0%nat (py "m1")
                   {| Gmail.headers := [(py "Subject", py "Hi")];
                      Gmail.parts := None;
                      Gmail.body_data := Some long_text |}
                   eq_refl eq_refl eq_refl) long_text)
    as (r & Hr & _ & Hurls & _ & _ & _ & Hcontent).
  - by vm_compute.
  - exists r. split; [exact Hr|]. split.
    + rewrite Hurls. by vm_compute.
    + rewrite Hcontent; [by vm_compute|]. vm_compute. lia.
Defined.

(** X15. From fetching to the digest.  For the records that [fetch_emails]
    returns for a non-empty listing, the digest has [total_emails] equal
    to the number of listed messages, and [total_urls] equal to the sum of
    the records' [url_count]. *)
Theorem digest_of_fetched_batch :
  ∀ (urlsafe_b64decode : str → result bytes) (decode_utf8 : bytes → result str)
    (soup_get_text urlparse_netloc : str → result str) (svc : Gmail.service)
    (query : str) (max_results : nat) (ids : list str),
    Gmail.messages_list svc query max_results = Ret (Some ids) →
    ids ≠ [] →
    Extractor.create_digest urlparse_netloc
      (Extractor.fetch_emails urlsafe_b64decode decode_utf8 soup_get_text
         (Some svc) query max_results) !! "total_emails"%string
      = Some (VInt (length ids)) ∧
    Extractor.create_digest urlparse_netloc
      (Extractor.fetch_emails urlsafe_b64decode decode_utf8 soup_get_text
         (Some svc) query max_results) !! "total_urls"%string
      = Some (VInt (sum_list (map Extractor.url_count
           (Extractor.fetch_emails urlsafe_b64decode decode_utf8 soup_get_text
              (Some svc) query max_results)))).
Proof.
  intros b64 utf8 soup netloc svc query n ids Hlist Hne.
  unfold Extractor.fetch_emails. rewrite Hlist. simpl.
  assert (map (Extractor.email_data b64 utf8 soup svc) ids ≠ []) as Hne'
    by (by destruct ids).
  split.
  - rewrite extractor_digest_total by done. by rewrite length_map.
  - rewrite extractor_digest_total_urls by done. rewrite length_concat_map.
    rewrite !map_map. do 3 f_equal. apply map_ext. intros i.
    symmetry. apply (email_data_invariants b64 utf8 soup svc i).
Qed.

Lemma digest_of_fetched_batch_witness :
  Extractor.create_digest Urllib.netloc
    (Extractor.fetch_emails Base64.urlsafe_b64decode decode_ascii text_without_markup
       (Some sample_service) [] 50) !! "total_emails"%string
    = Some (VInt (length [py "m1"; py "m2"])).
Proof.
  apply (digest_of_fetched_batch Base64.urlsafe_b64decode decode_ascii
           text_without_markup Urllib.netloc sample_service [] 50 [py "m1"; py "m2"]).
  - reflexivity.
  - discriminate.
Defined.

(** ** The export and the date query *)

Section ExportFacts.

Lemma splitlines_go_run (cur u s : str) (after_cr : bool) :
  single_line u → u ≠ [] →
  splitlines_go cur after_cr (u ++ s) = splitlines_go (cur ++ u) false s.
Proof.
  intros Hu. revert cur after_cr.
  induction Hu as [|c u Hc Hu IH]; intros cur after_cr Hne; [done|].
  simpl.
  assert ((c =? 10) = false) as ->.
  { apply N.eqb_neq. intros ->. by vm_compute in Hc. }
  rewrite andb_false_r, Hc.
  destruct u as [|d u].
  - done.
  - rewrite IH by done. by rewrite <-app_assoc.
Qed.

Lemma str_join_cons (sep x : str) (rest : list str) :
  rest ≠ [] → str_join sep (x :: rest) = x ++ sep ++ str_join sep rest.
Proof. by destruct rest. Qed.

Lemma splitlines_join_lines (lines : list str) :
  Forall (λ u, u ≠ [] ∧ single_line u) lines →
  splitlines (str_join [10] lines) = lines.
Proof.
  unfold splitlines.
  induction 1 as [|u rest [Hne Hu] Hrest IH]; [done|].
  destruct (decide (rest = [])) as [->|Hr].
  - simpl. rewrite <-(app_nil_r u) at 1. rewrite splitlines_go_run by done.
    simpl. by destruct u.
  - rewrite str_join_cons by done. rewrite splitlines_go_run by done.
    change (splitlines_go ([] ++ u) false ([10] ++ str_join [10] rest))
      with (u :: splitlines_go [] false (str_join [10] rest)).
    by rewrite IH.
Qed.

Lemma accepted_not_linebreak (c : char) : accepted c → is_linebreak c = false.
Proof.
  unfold accepted, is_linebreak. intros H.
  apply not_true_is_false. rewrite !orb_true_iff, !andb_true_iff, !N.leb_le, !N.eqb_eq.
  lia.
Qed.

Lemma extracted_url_one_line (text u : str) :
  u ∈ Summarizer.extract_urls_from_text text → u ≠ [] ∧ single_line u.
Proof.
  intros (pre & scheme & body & post & _ & -> & Hs & Hne & Hbody & _)
    %extract_urls_maximal.
  split; [by destruct Hs as [-> | ->]|].
  apply Forall_app. split.
  - destruct Hs as [-> | ->]; by vm_compute; repeat constructor.
  - eapply Forall_impl; [exact Hbody|]. apply accepted_not_linebreak.
Qed.

Lemma space_split_unique (a b x y : str) :
  32 ∉ a → 32 ∉ b → a ++ 32 :: x = b ++ 32 :: y → a = b ∧ x = y.
Proof.
  revert b. induction a as [|c a IH]; intros [|d b]; simpl.
  - by intros _ _ [= ->].
  - intros _ Hb [= <- _]. exfalso. apply Hb, list_elem_of_here.
  - intros Ha _ [= -> _]. exfalso. apply Ha, list_elem_of_here.
  - rewrite !not_elem_of_cons. intros [_ Ha] [_ Hb] [= -> H].
    destruct (IH b Ha Hb H) as [-> ->]. done.
Qed.

End ExportFacts.

(** X16. The URL export loses nothing.  The export text joins the URLs
    with line feeds; when each of them was produced by
    [extract_urls_from_text], splitting the text into lines gives back the
    same URLs in the same order, since no extracted URL is empty or holds
    a line boundary. *)
Theorem export_urls_round_trip :
  ∀ urls : list str,
    (∀ u, u ∈ urls → ∃ text, u ∈ Summarizer.extract_urls_from_text text) →
    splitlines (Summarizer.export_urls urls) = urls ∧
    splitlines (Extractor.export_urls urls) = urls.
Proof.
  intros urls H.
  assert (splitlines (str_join [10] urls) = urls) as Hs; [|by split].
  apply splitlines_join_lines, Forall_forall. intros u Hu.
  destruct (H u Hu) as [text Ht]. by eapply extracted_url_one_line.
Qed.

Lemma export_urls_round_trip_witness :
  splitlines (Summarizer.export_urls
                [py "https://example.com/page?a=1"; py "http://x.io."])
  = [py "https://example.com/page?a=1"; py "http://x.io."] ∧
  splitlines (Extractor.export_urls
                [py "https://example.com/page?a=1"; py "http://x.io."])
  = [py "https://example.com/page?a=1"; py "http://x.io."].
Proof.
  apply (export_urls_round_trip [py "https://example.com/page?a=1"; py "http://x.io."]).
  intros u Hu. exists visit_text. apply list_of_set_elem.
  rewrite findall_visit_text. exact Hu.
Defined.

(** X17. The date query determines its dates.  When the start dates hold
    no space, two calls of [get_date_range_query] give the same query only
    for the same start date and the same end date. *)
Theorem get_date_range_query_injective :
  ∀ start1 end1 start2 end2 : str,
    32 ∉ start1 → 32 ∉ start2 →
    Summarizer.get_date_range_query start1 end1
      = Summarizer.get_date_range_query start2 end2 →
    start1 = start2 ∧ end1 = end2.
Proof.
  intros s1 e1 s2 e2 H1 H2. unfold Summarizer.get_date_range_query.
  intros H%app_inv_head.
  change (py " before:" ++ ?e) with (32 :: py "before:" ++ e) in H.
  apply space_split_unique in H as [-> H]; [|done..].
  by apply app_inv_head in H as ->.
Qed.

Lemma get_date_range_query_injective_witness :
  py "2024/01/01" = py "2024/01/01" ∧ py "2024/01/08" = py "2024/01/08".
Proof.
  apply (get_date_range_query_injective
           (py "2024/01/01") (py "2024/01/08") (py "2024/01/01") (py "2024/01/08")).
  - vm_compute. intros H. repeat (apply elem_of_cons in H as [H|H]; [discriminate H|]).
    by apply elem_of_nil in H.
  - vm_compute. intros H. repeat (apply elem_of_cons in H as [H|H]; [discriminate H|]).
    by apply elem_of_nil in H.
  - reflexivity.
Defined.

(** ** Messages without a usable text part *)

Section NoTextFacts.
Import Gmail.

Lemma first_plain_None (ps : list part) :
  Forall (λ p, mimeType p ≠ py "text/plain") ps → first_plain ps = None.
Proof.
  unfold first_plain. induction 1 as [|p ps Hp _ IH]; [done|].
  by rewrite filter_cons_False.
Qed.

Lemma last_html_None (ps : list part) :
  Forall (λ p, mimeType p ≠ py "text/html") ps → last_html ps = None.
Proof.
  unfold last_html. induction 1 as [|p ps Hp _ IH]; [done|].
  by rewrite filter_cons_False.
Qed.

Lemma get_email_content_empty_body
    (urlsafe_b64decode : str → result bytes) (decode_utf8 : bytes → result str)
    (soup_get_text : str → result str) (message : payload) :
  Summarizer.select_body message = [] →
  Summarizer.get_email_content urlsafe_b64decode decode_utf8 soup_get_text message
  = ([], header (py "Subject") (py "No Subject") (headers message),
     header (py "From") (py "Unknown Sender") (headers message),
     header (py "Date") (py "Unknown Date") (headers message)).
Proof. intros H. unfold Summarizer.get_email_content. by rewrite H. Qed.

End NoTextFacts.

(** X18. Messages without a usable text part.  When none of the parts of
    a message is of type [text/plain] or [text/html] (attachments only, or
    the text nested inside a [multipart] part, which the scan does not
    enter), the content is empty.  It is empty as well when the first
    [text/plain] part carries no data, even if a [text/html] part with data
    follows.  In both cases subject, sender and date are still read from
    the headers, and neither the decoder nor the parser is consulted. *)
Theorem get_email_content_without_text :
  ∀ (urlsafe_b64decode : str → result bytes) (decode_utf8 : bytes → result str)
    (soup_get_text : str → result str) (message : Gmail.payload)
    (ps : list Gmail.part),
    Gmail.parts message = Some ps →
    Forall (λ p, Gmail.mimeType p ≠ py "text/plain" ∧
                 Gmail.mimeType p ≠ py "text/html") ps ∨
    (∃ p, first_plain ps = Some p ∧ Gmail.part_data p = None) →
    ∃ subject sender date,
      Summarizer.get_email_content urlsafe_b64decode decode_utf8 soup_get_text message
        = ([], subject, sender, date) ∧
      Extractor.get_email_content urlsafe_b64decode decode_utf8 soup_get_text message
        = ([], subject, sender, date) ∧
      first_header (Gmail.headers message) (py "Subject") (py "No Subject") subject ∧
      first_header (Gmail.headers message) (py "From") (py "Unknown Sender") sender ∧
      first_header (Gmail.headers message) (py "Date") (py "Unknown Date") date.
Proof.
  intros b64 utf8 soup message ps Hps Hcase.
  assert (Summarizer.select_body message = []) as Hbody.
  { unfold Summarizer.select_body. rewrite Hps, scan_parts_policy.
    destruct Hcase as [Hall|(p & -> & ->)]; [|done].
    rewrite first_plain_None, last_html_None; [done|..];
      (eapply Forall_impl; [exact Hall|]; by intros p [? ?]). }
  eexists _, _, _. split_and!.
  - by apply get_email_content_empty_body.
  - by apply (get_email_content_empty_body b64 utf8 soup).
  - apply header_first.
  - apply header_first.
  - apply header_first.
Qed.

Lemma get_email_content_without_text_witness :
  ∃ subject sender date,
    Summarizer.get_email_content Base64.urlsafe_b64decode decode_ascii
      text_without_markup nested_multipart = ([], subject, sender, date) ∧
    Extractor.get_email_content Base64.urlsafe_b64decode decode_ascii
      text_without_markup nested_multipart = ([], subject, sender, date) ∧
    first_header (Gmail.headers nested_multipart) (py "Subject") (py "No Subject") subject ∧
    first_header (Gmail.headers nested_multipart) (py "From") (py "Unknown Sender") sender ∧
    first_header (Gmail.headers nested_multipart) (py "Date") (py "Unknown Date") date.
Proof.
  apply (get_email_content_without_text Base64.urlsafe_b64decode decode_ascii
           text_without_markup nested_multipart
           [{| Gmail.mimeType := py "multipart/alternative"; Gmail.part_data := None |};
            {| Gmail.mimeType := py "application/pdf";
               Gmail.part_data := Some (py "JVBERi0") |}]).
  - reflexivity.
  - left. repeat constructor; simpl; discriminate.
Defined.

(** ** The order of the records *)

Section OrderFacts.

Lemma count_of_Permutation (k : str) (xs ys : list str) :
  xs ≡ₚ ys → count_of k xs = count_of k ys.
Proof. intros H. unfold count_of. by rewrite H. Qed.

Lemma count_into_Permutation (xs ys : list str) :
  xs ≡ₚ ys → count_into [] xs ≡ₚ count_into [] ys.
Proof.
  intros H. apply NoDup_Permutation.
  - eapply NoDup_fmap_1. rewrite (proj1 (count_into_histogram xs)).
    apply first_seen_NoDup.
  - eapply NoDup_fmap_1. rewrite (proj1 (count_into_histogram ys)).
    apply first_seen_NoDup.
  - intros [k n].
    rewrite (proj1 (proj2 (count_into_histogram xs)) k n).
    rewrite (proj1 (proj2 (count_into_histogram ys)) k n).
    rewrite (count_of_Permutation k xs ys H).
    assert (k ∈ xs ↔ k ∈ ys) as -> by (by rewrite H). done.
Qed.

Lemma list_of_set_Permutation (xs ys : list str) :
  (∀ x, x ∈ xs ↔ x ∈ ys) → list_of_set xs ≡ₚ list_of_set ys.
Proof.
  intros H. apply NoDup_Permutation; [apply list_of_set_NoDup..|].
  intros x. by rewrite !list_of_set_elem.
Qed.

Lemma concat_urls_elem (emails1 emails2 : list Summarizer.email) (u : str) :
  emails1 ≡ₚ emails2 →
  u ∈ concat (map Summarizer.urls emails1) ↔ u ∈ concat (map Summarizer.urls emails2).
Proof.
  intros H. rewrite !list_elem_of_In, !in_concat.
  split; intros (l & Hl & Hu); exists l; (split; [|done]);
    apply list_elem_of_In; apply list_elem_of_In in Hl;
    apply list_elem_of_fmap in Hl as (e & -> & He); apply list_elem_of_fmap;
    exists e; (split; [done|]).
  - by rewrite <-H.
  - by rewrite H.
Qed.

End OrderFacts.

(** X19. What does not depend on the order of the records.  Two
    non-empty batches that hold the same records in a different order have
    digests with the same [total_emails], the same unique URLs and the
    same sentiment counts (each up to the order of the entries).  The
    order shows only in [action_items], in the ties of [top_senders] and in
    [date_range]. *)
Theorem create_digest_order_independent :
  ∀ emails1 emails2 : list Summarizer.email,
    emails1 ≡ₚ emails2 → emails1 ≠ [] →
    Summarizer.create_digest emails1 !! "total_emails"%string
      = Summarizer.create_digest emails2 !! "total_emails"%string ∧
    (∃ us1 us2,
       Summarizer.create_digest emails1 !! "unique_urls"%string = Some (VStrs us1) ∧
       Summarizer.create_digest emails2 !! "unique_urls"%string = Some (VStrs us2) ∧
       us1 ≡ₚ us2) ∧
    (∃ d1 d2,
       Summarizer.create_digest emails1 !! "sentiment_distribution"%string
         = Some (VDict d1) ∧
       Summarizer.create_digest emails2 !! "sentiment_distribution"%string
         = Some (VDict d2) ∧
       d1 ≡ₚ d2).
Proof.
  intros e1 e2 H He1.
  assert (e2 ≠ []) as He2.
  { intros ->. by apply Permutation_nil_r in H. }
  split_and!.
  - rewrite !summarizer_digest_total by done. by rewrite H.
  - eexists _, _. split_and!; [by apply summarizer_digest_unique_urls..|].
    apply list_of_set_Permutation. intros u. by apply concat_urls_elem.
  - eexists _, _. split_and!; [by apply summarizer_digest_sentiments..|].
    apply count_into_Permutation. by rewrite H.
Qed.

Lemma create_digest_order_independent_witness :
  Summarizer.create_digest
    [summarizer_email (py "A") [py "http://a.com/x"]; summarizer_email (py "B") []]
    !! "total_emails"%string
  = Summarizer.create_digest
      [summarizer_email (py "B") []; summarizer_email (py "A") [py "http://a.com/x"]]
      !! "total_emails"%string.
Proof.
  apply (create_digest_order_independent
           [summarizer_email (py "A") [py "http://a.com/x"]; summarizer_email (py "B") []]
           [summarizer_email (py "B") []; summarizer_email (py "A") [py "http://a.com/x"]]).
  - apply Permutation_swap.
  - discriminate.
Defined.
